(** * slack_emoji_uploader: the removal and upload phases of [main]

    A shallow embedding of [src/slack_emoji_uploader/__init__.py]:
    the planning of removals, the in-place update of the working view
    [existing_images], the expansion of the configured range into
    images, and the bounded upload loop, together with [remove] and
    [reliably_upload]; then the rest of the program: [load_settings],
    the reads of the profile through [configparser], the login, the
    snapshot and [upload].

    The network, the thread pool and the external [reliable_executor]
    package are an explicit [World]: it answers every POST, says which
    futures have completed at every [concurrent.futures.wait], and
    gives the outcome of every reliable execution.  Side effects are
    recorded as a trace of [Event]s. *)

From Stdlib Require Import Ascii String.
From stdpp Require Import base strings list gmap pretty.

Open Scope string_scope.
Open Scope list_scope.

(** ** Python built-ins used by the program *)

Module Py.

(** The double-quote character, which the log formats contain. *)
Definition dq : string := String "034"%char EmptyString.

(** [s.split(sep)] for a one-character separator: never empty,
    [''.split('|') == ['']]. *)
Fixpoint split (sep : ascii) (s : string) : list string :=
  match s with
  | EmptyString => [EmptyString]
  | String c s' =>
      if Ascii.eqb c sep then EmptyString :: split sep s'
      else match split sep s' with
           | [] => [String c EmptyString]
           | word :: words => String c word :: words
           end
  end.

(** [sep.join(words)]. *)
Fixpoint join (sep : string) (words : list string) : string :=
  match words with
  | [] => EmptyString
  | [word] => word
  | word :: rest => word +:+ sep +:+ join sep rest
  end.

(** [sorted(words)]: strings are ordered by code point. *)
Fixpoint insert_sorted (word : string) (sorted_words : list string) : list string :=
  match sorted_words with
  | [] => [word]
  | other :: rest =>
      if String.leb word other then word :: other :: rest
      else other :: insert_sorted word rest
  end.

Definition sorted (words : list string) : list string :=
  foldr insert_sorted [] words.

(** [range(start, stop)] on integers. *)
Definition range (start stop : Z) : list Z :=
  (λ i : nat, (start + Z.of_nat i)%Z) <$> seq 0 (Z.to_nat (stop - start)).

(** A [dict] keeps its keys in insertion order; assigning to a key
    that is already there replaces the value where the key stands. *)
Fixpoint dict_set {K V} `{EqDecision K} (k : K) (v : V) (d : list (K * V)) : list (K * V) :=
  match d with
  | [] => [(k, v)]
  | (k', v') :: rest =>
      if decide (k = k') then (k, v) :: rest else (k', v') :: dict_set k v rest
  end.

(** [dict(pairs).items()]. *)
Definition dict {K V} `{EqDecision K} (pairs : list (K * V)) : list (K * V) :=
  foldl (λ d kv, dict_set kv.1 kv.2 d) [] pairs.

(** [l.remove(x)]: drops the first element equal to [x]; [None]
    stands for the [ValueError] raised when there is none. *)
Fixpoint list_remove {A} `{EqDecision A} (x : A) (l : list A) : option (list A) :=
  match l with
  | [] => None
  | y :: rest =>
      if decide (x = y) then Some rest else (y ::.) <$> list_remove x rest
  end.

(** [x or ''] for an optional string: [None] and [''] are falsy. *)
Definition or_empty (value : option string) : string :=
  match value with
  | Some (String _ _ as s) => s
  | _ => EmptyString
  end.

(** [s.lower()] on ASCII text: the letters [A] to [Z] become [a] to
    [z], every other character stays. *)
Definition lower_char (c : ascii) : ascii :=
  let n := nat_of_ascii c in
  if bool_decide (65 ≤ n ≤ 90)%nat then ascii_of_nat (n + 32) else c.

Fixpoint lower (s : string) : string :=
  match s with
  | EmptyString => EmptyString
  | String c rest => String (lower_char c) (lower rest)
  end.

(** ['%s' % value] for an optional string. *)
Definition str (value : option string) : string :=
  match value with
  | Some s => s
  | None => "None"
  end.

End Py.

(** ** Data model *)

(** A parsed [<form>] element.  lxml elements compare by identity,
    which [node] stands for; [hidden_inputs] are the name and value
    attributes of its hidden [<input>] children, in document order:
    every hidden input is taken to carry both attributes. *)
Record Form := {
  node : nat;
  hidden_inputs : list (string * string);
}.

Record Image := {
  id : string;
  filename : option string;
  remove_form : option Form;
}.

Record Slack := {
  url : string;
  cookie : string;
}.

Record Settings := {
  slack : Slack;
  headers : list (string * string);
  upload_folder : string;
}.

Global Instance Form_eq_dec : EqDecision Form.
Proof. solve_decision. Defined.

Global Instance Image_eq_dec : EqDecision Image.
Proof. solve_decision. Defined.

(** The parsed command line. *)
Module args.
Record t := {
  start : Z;
  finish : Z;
  upload : bool;
  remove : bool;
  dry_run : bool;
  threads : Z;
}.
End args.

(** ** Effects *)

Inductive Level := DEBUG | INFO | WARNING | ERROR.

(** The exceptions the program can meet.  [RuntimeError] also stands
    for its subclasses, which [except RuntimeError] catches alike;
    [OtherException] is any class outside that family (a
    [requests] or [OSError] failure, say). *)
Inductive Exn :=
| ValueError (message : string)
| AttributeError (message : string)
| RuntimeError (message : string)
| OtherException (class_name message : string).

(** A future is named by its submission rank. *)
Definition Future := nat.

Inductive Event :=
| Log (level : Level) (message : string)
    (* a call of [log.debug], [log.info], [log.warning], [log.error] *)
| Post (to : string) (with_headers data : list (string * string))
    (* [requests.post] issued by [remove] *)
| Submit (future : Future) (image : Image)
    (* [executor.submit(reliably_upload, image, ...)] *)
| Task (future : Future) (records : list (Level * string)) (exception : option Exn)
    (* the worker's run of that call: the log calls it made and the
       exception the future stores ([None] when the call returned) *)
| WaitFirst (not_done : list Future)
    (* [wait(uploading, FIRST_COMPLETED).not_done] *)
| WaitAll (futures : list Future).
    (* the final [wait(uploading)] *)

(** The log calls of a trace, in order. *)
Definition logged (tr : list Event) : list (Level * string) :=
  omap (λ ev, match ev with Log level message => Some (level, message) | _ => None end) tr.

(** A computation yields its trace and either an exception or a value. *)
Definition M (A : Type) : Type := list Event * (Exn + A).

Global Instance M_ret : MRet M := λ A a, ([], inr a).

Global Instance M_bind : MBind M := λ A B k m,
  match m.2 with
  | inl e => (m.1, inl e)
  | inr a => (m.1 ++ (k a).1, (k a).2)
  end.

Definition raise {A} (e : Exn) : M A := ([], inl e).

Definition emit (ev : Event) : M unit := ([ev], inr tt).

Definition log (level : Level) (message : string) : M unit :=
  emit (Log level message).

(** [try: body except <classes>: handler]: [handler e] is [None] when
    the except clause does not match [e]. *)
Definition try_except {A} (body : M A) (handler : Exn → option (M A)) : M A :=
  match body.2 with
  | inl e =>
      match handler e with
      | Some h => (body.1 ++ h.1, h.2)
      | None => body
      end
  | inr _ => body
  end.

(** A [for] loop threading a state. *)
Fixpoint for_each {A S} (body : S → A → M S) (s : S) (l : list A) : M S :=
  match l with
  | [] => mret s
  | x :: rest => s' ← body s x; for_each body s' rest
  end.

(** ** The world outside the process *)

Inductive PostOutcome :=
| Responded (status : nat)     (* a response came back, whatever its status *)
| PostRaised (e : Exn).        (* [requests.post] raised *)

Inductive ExecOutcome :=
| Completed                    (* some attempt of [upload] returned *)
| Failed (e : Exn).            (* [reliably_execute] raised *)

(** What [wait(fs, FIRST_COMPLETED)] finds: the future at rank
    [first_done] among [fs] has completed, and so have those that
    [also_done] marks. *)
Record Completion := {
  first_done : nat;
  also_done : Future → bool;
}.

Record World := {
  post_outcome : nat → PostOutcome;     (* by rank of the POST *)
  completion : nat → Completion;        (* by rank of the wait *)
  exec_outcome : Future → ExecOutcome;
}.

(** ** Log messages and configuration keys *)

Definition quoted (s : string) : string := Py.dq +:+ s +:+ Py.dq.

(** ['{}.id'.format(image_id)] and ['{}.filename'.format(image_id)]. *)
Definition key_id (image_id : Z) : string := pretty image_id +:+ ".id".
Definition key_filename (image_id : Z) : string := pretty image_id +:+ ".filename".

Definition sorted_ids (images : list Image) : string :=
  Py.join ", " (Py.sorted (id <$> images)).

Definition removing_msg (images : list Image) : string :=
  "Removing: " +:+ quoted (sorted_ids images).
Definition would_remove_msg (images : list Image) : string :=
  "Would remove " +:+ quoted (sorted_ids images).
Definition would_upload_msg (identifier : string) : string :=
  "Would upload " +:+ quoted identifier.
Definition not_found_msg (image_id : Z) : string :=
  "ID " +:+ quoted (key_id image_id) +:+ " was not found in settings".
Definition attempting_msg (identifier : string) : string :=
  "Attempting to upload " +:+ quoted identifier.
Definition uploaded_msg (file : option string) (uploaded_as : string) : string :=
  "Uploaded " +:+ quoted (Py.str file) +:+ " as " +:+ quoted uploaded_as +:+ " successfully".
Definition failed_msg (identifier reason : string) : string :=
  "Uploading " +:+ quoted identifier +:+ " failed because of " +:+ quoted reason.

(** ** [reliably_upload] *)

(** [reliable_executor.reliably_execute(upload, image, settings)]: the
    package is not part of the repository, so its outcome is the
    world's; when it returns, it returns what [upload] returned, the
    image's id. *)
Definition reliably_execute (outcome : ExecOutcome) (image : Image) : M string :=
  match outcome with
  | Completed => mret (id image)
  | Failed e => raise e
  end.

Definition reliably_upload (outcome : ExecOutcome) (image : Image) : M unit :=
  log DEBUG (attempting_msg (id image)) ;;
  try_except
    (uploaded_as ← reliably_execute outcome image;
     log INFO (uploaded_msg (filename image) uploaded_as))
    (λ e, match e with
          | RuntimeError runtime_error =>
              Some (log ERROR (failed_msg (id image) runtime_error))
          | _ => None
          end).

(** ** [remove] *)

Definition requests_post (w : World) (rank : nat)
    (to : string) (with_headers data : list (string * string)) : M nat :=
  emit (Post to with_headers data) ;;
  match post_outcome w rank with
  | Responded status => mret status
  | PostRaised e => raise e
  end.

(** The [data] of a removal: the hidden inputs of the image's form as
    a [dict].  An image without a form has no [xpath]. *)
Definition remove_data (image : Image) : M (list (string * string)) :=
  match remove_form image with
  | Some form => mret (Py.dict (hidden_inputs form))
  | None => raise (AttributeError "'NoneType' object has no attribute 'xpath'")
  end.

(** The body of [for image in images]; [rank] counts the POSTs. *)
Definition remove_one (w : World) (settings : Settings) (rank : nat) (image : Image) : M nat :=
  data ← remove_data image;
  requests_post w rank (url (slack settings)) (headers settings) data ;;
  mret (S rank).

Definition remove (w : World) (images : list Image) (settings : Settings) : M unit :=
  log INFO (removing_msg images) ;;
  for_each (remove_one w settings) 0 images ;;
  mret tt.

(** ** The removal phase of [main] *)

(** In this part and the next, [settings] holds the options of the
    profile with the values their reads return; the reads themselves,
    which interpolate the stored values and can raise, are those of
    [stored] further down, where the two are related. *)

(** [image.id in settings['{}.id'.format(image_id)].split('|')], behind
    the test that the key is there. *)
Definition configured_at (settings : gmap string string) (identifier : string) (image_id : Z) : bool :=
  match settings !! key_id image_id with
  | Some ids => bool_decide (identifier ∈ Py.split "|" ids)
  | None => false
  end.

(** The generator of [images_to_remove]: the outer [for] runs over the
    images, the inner one over the range. *)
Definition images_to_remove (a : args.t) (settings : gmap string string)
    (existing_images : list Image) : list Image :=
  image ← existing_images;
  image_id ← Py.range (args.start a) (args.finish a + 1);
  if configured_at settings (id image) image_id then [image] else [].

(** [for image_to_remove in images_to_remove:
       existing_images.remove(image_to_remove)] *)
Definition remove_each (existing_images to_remove : list Image) : M (list Image) :=
  for_each (λ view image_to_remove,
      match Py.list_remove image_to_remove view with
      | Some view' => mret view'
      | None => raise (ValueError "list.remove(x): x not in list")
      end)
    existing_images to_remove.

Definition removal_phase (a : args.t) (w : World) (settings : gmap string string)
    (configurations : Settings) (existing_images : list Image) : M (list Image) :=
  if args.remove a then
    let to_remove := images_to_remove a settings existing_images in
    (if args.dry_run a
     then log INFO (would_remove_msg to_remove)
     else remove w to_remove configurations) ;;
    remove_each existing_images to_remove
  else mret existing_images.

(** ** The upload phase of [main] *)

(** The images of one position: the ids and the file names are split
    at ['|'], zipped, and passed through a [dict]. *)
Definition images_of (settings : gmap string string) (image_id : Z) (ids : string) : list Image :=
  (λ item : string * string,
     {| id := item.1; filename := Some item.2; remove_form := None |})
  <$> Py.dict (zip (Py.split "|" ids)
                   (Py.split "|" (Py.or_empty (settings !! key_filename image_id)))).

(** The variables of the loop: the set [uploading], and how many
    futures were submitted and how many waits were made so far. *)
Record Loop := {
  uploading : list Future;
  submitted : nat;
  waited : nat;
}.

(** [wait(fs, return_when=FIRST_COMPLETED).not_done]: returns once a
    future of [fs] has completed, with those that have not. *)
Definition wait_first_completed (c : Completion) (fs : list Future) : list Future :=
  match fs with
  | [] => []
  | f0 :: _ =>
      let winner := nth (first_done c `mod` length fs) fs f0 in
      filter (λ f, f ≠ winner ∧ ¬ also_done c f) fs
  end.

(** A worker's run of [reliably_upload(image, configurations, log=log)]:
    what the call raises stays in the future. *)
Definition worker_run (w : World) (future : Future) (image : Image) : Event :=
  let run := reliably_upload (exec_outcome w future) image in
  Task future (logged run.1) (match run.2 with inl e => Some e | inr _ => None end).

(** [executor.submit(reliably_upload, image, configurations, log=log)]. *)
Definition executor_submit (w : World) (future : Future) (image : Image) : M unit :=
  emit (Submit future image) ;;
  emit (worker_run w future image).

(** The body of [for image in images]. *)
Definition consider (a : args.t) (w : World) (existing_images : list Image)
    (st : Loop) (image : Image) : M Loop :=
  if bool_decide (id image ∈ id <$> existing_images) then mret st
  else
    st ← (if bool_decide (args.threads a ≤ Z.of_nat (length (uploading st)))%Z
          then
            let not_done :=
              wait_first_completed (completion w (waited st)) (uploading st) in
            emit (WaitFirst not_done) ;;
            mret {| uploading := not_done;
                    submitted := submitted st;
                    waited := S (waited st) |}
          else mret st);
    if args.dry_run a then
      log INFO (would_upload_msg (id image)) ;; mret st
    else
      executor_submit w (submitted st) image ;;
      mret {| uploading := uploading st ++ [submitted st];
              submitted := S (submitted st);
              waited := waited st |}.

(** The body of [for image_id in range(args.start, args.finish+1)]. *)
Definition position (a : args.t) (w : World) (settings : gmap string string)
    (existing_images : list Image) (st : Loop) (image_id : Z) : M Loop :=
  match settings !! key_id image_id with
  | Some ids => for_each (consider a w existing_images) st (images_of settings image_id ids)
  | None => log WARNING (not_found_msg image_id) ;; mret st
  end.

Definition upload_loop (a : args.t) (w : World) (settings : gmap string string)
    (existing_images : list Image) : M Loop :=
  for_each (position a w settings existing_images)
    {| uploading := []; submitted := 0; waited := 0 |}
    (Py.range (args.start a) (args.finish a + 1)).

(** [ThreadPoolExecutor(args.threads)] refuses a pool without workers. *)
Definition ThreadPoolExecutor (max_workers : Z) : M unit :=
  if bool_decide (max_workers ≤ 0)%Z
  then raise (ValueError "max_workers must be greater than 0")
  else mret tt.

Definition upload_phase (a : args.t) (w : World) (settings : gmap string string)
    (existing_images : list Image) : M unit :=
  if args.upload a then
    ThreadPoolExecutor (args.threads a) ;;
    st ← upload_loop a w settings existing_images;
    emit (WaitAll (uploading st))
  else mret tt.

(** ** [main], from the snapshot on

    [settings] is the loaded profile, as its reads show it,
    [configurations] the session, and [existing_images] what
    [get_current_state] returned. *)
Definition main (a : args.t) (w : World) (settings : gmap string string)
    (configurations : Settings) (existing_images : list Image) : M unit :=
  view ← removal_phase a w settings configurations existing_images;
  upload_phase a w settings view.

(** ** Reading a trace *)

(** The [data] of the removal POSTs, in order. *)
Definition posts (tr : list Event) : list (list (string * string)) :=
  omap (λ ev, match ev with Post _ _ data => Some data | _ => None end) tr.

(** The images handed to the executor, in order. *)
Definition submissions (tr : list Event) : list Image :=
  omap (λ ev, match ev with Submit _ image => Some image | _ => None end) tr.

(** The futures with the images they were created for. *)
Definition submitted_futures (tr : list Event) : list (Future * Image) :=
  omap (λ ev, match ev with Submit f image => Some (f, image) | _ => None end) tr.

(** The POST that removes an image which carries a form. *)
Definition removal_post (settings : Settings) (image : Image) : Event :=
  Post (url (slack settings)) (headers settings)
       (match remove_form image with
        | Some form => Py.dict (hidden_inputs form)
        | None => []
        end).

(** The events of the removal phase: log calls and POSTs. *)
Definition of_removal (ev : Event) : Prop :=
  match ev with
  | Log _ _ | Post _ _ _ => True
  | _ => False
  end.

(** A remote mutation: a removal POST, or an upload handed to a worker. *)
Definition mutation (ev : Event) : Prop :=
  match ev with
  | Post _ _ _ | Submit _ _ | Task _ _ _ => True
  | _ => False
  end.

(** The value of the variable [uploading] after the events of a trace:
    a submission adds its future, a first-completed wait rebinds the
    variable to what is not done, nothing else touches it. *)
Definition in_flight_step (fs : list Future) (ev : Event) : list Future :=
  match ev with
  | Submit f _ => fs ++ [f]
  | WaitFirst not_done => not_done
  | _ => fs
  end.

Definition in_flight_from (fs : list Future) (tr : list Event) : list Future :=
  foldl in_flight_step fs tr.

Definition in_flight (tr : list Event) : list Future := in_flight_from [] tr.

(** At no point of the trace does [uploading], which held [fs] at its
    start, hold more than [T] futures. *)
Definition bounded (T : nat) (fs : list Future) (tr : list Event) : Prop :=
  ∀ n, (length (in_flight_from fs (take n tr)) ≤ T)%nat.

(** The trace without the workers' runs. *)
Definition without_tasks (tr : list Event) : list Event :=
  omap (λ ev, match ev with Task _ _ _ => None | _ => Some ev end) tr.

(** Two computations that end alike and differ at most in what the
    workers did. *)
Definition similar {A} (m1 m2 : M A) : Prop :=
  m1.2 = m2.2 ∧ without_tasks m1.1 = without_tasks m2.1.

(** Every submitted call was run by a worker. *)
Definition all_run (w : World) (tr : list Event) : Prop :=
  ∀ f image, Submit f image ∈ tr → worker_run w f image ∈ tr.

(** A step of the upload loop from state [s]: it returns, the trace
    accounts for the new value of [uploading], and stays within [T]. *)
Definition tracked (T : nat) (s : Loop) (m : M Loop) : Prop :=
  ∃ s', m.2 = inr s' ∧
        in_flight_from (uploading s) m.1 = uploading s' ∧
        bounded T (uploading s) m.1.

(** ** The plan the loops follow *)

(** An image of the snapshot is selected when its id is configured at
    some position of the range. *)
Definition selected (a : args.t) (settings : gmap string string) (image : Image) : Prop :=
  Exists (λ image_id, configured_at settings (id image) image_id)
         (Py.range (args.start a) (args.finish a + 1)).

Global Instance selected_dec a settings image : Decision (selected a settings image).
Proof. unfold selected. apply _. Defined.

(** How often [x] occurs in [l]. *)
Definition occurrences (x : Image) (l : list Image) : nat :=
  length (filter (λ y, y = x) l).

(** At how many positions of the range it is configured. *)
Definition times_selected (a : args.t) (settings : gmap string string) (image : Image) : nat :=
  length (filter (λ image_id, configured_at settings (id image) image_id)
                 (Py.range (args.start a) (args.finish a + 1))).

(** The images one position expands to: none when its id key is missing. *)
Definition desired_at (settings : gmap string string) (image_id : Z) : list Image :=
  match settings !! key_id image_id with
  | Some ids => images_of settings image_id ids
  | None => []
  end.

(** The images the range expands to, position after position. *)
Definition desired (a : args.t) (settings : gmap string string) : list Image :=
  Py.range (args.start a) (args.finish a + 1) ≫= desired_at settings.

(** What the main thread logs for one image of the upload loop. *)
Definition upload_report (a : args.t) (view : list Image) (image : Image) : list (Level * string) :=
  if decide (id image ∉ id <$> view)
  then (if args.dry_run a then [(INFO, would_upload_msg (id image))] else [])
  else [].


(** Those of them that pass the test of [for image in images]. *)
Definition to_upload (a : args.t) (settings : gmap string string) (view : list Image) : list Image :=
  filter (λ image, id image ∉ id <$> view) (desired a settings).

(** The world with other outcomes for the reliable executions. *)
Definition with_exec_outcome (w : World) (outcomes : Future → ExecOutcome) : World :=
  {| post_outcome := post_outcome w;
     completion := completion w;
     exec_outcome := outcomes |}.

(** ** Sample data *)

Module sample.

Definition configurations : Settings :=
  {| slack := {| url := "https://team.slack.com/customize/emoji"; cookie := "d=1" |};
     headers := [("Cookie", "d=1")];
     upload_folder := "/emoji" |}.

(** An image of the snapshot, with the form of its row. *)
Definition existing (identifier : string) (row : nat) : Image :=
  {| id := identifier;
     filename := None;
     remove_form := Some {| node := row; hidden_inputs := [("remove", identifier)] |} |}.

(** An image made from the configuration. *)
Definition wanted (identifier file : string) : Image :=
  {| id := identifier; filename := Some file; remove_form := None |}.

Definition flags (start finish : Z) (upload remove dry_run : bool) (threads : Z) : args.t :=
  {| args.start := start; args.finish := finish; args.upload := upload;
     args.remove := remove; args.dry_run := dry_run; args.threads := threads |}.

Definition first_only : Completion :=
  {| first_done := 0; also_done := λ _, false |}.

(** Every POST is answered, every upload goes through. *)
Definition calm : World :=
  {| post_outcome := λ _, Responded 200;
     completion := λ _, first_only;
     exec_outcome := λ _, Completed |}.

(** No POST gets through. *)
Definition offline : World :=
  {| post_outcome := λ _, PostRaised (OtherException "ConnectionError" "unreachable");
     completion := λ _, first_only;
     exec_outcome := λ _, Completed |}.

(** Every POST is answered with a server error. *)
Definition refusing : World :=
  {| post_outcome := λ _, Responded 500;
     completion := λ _, first_only;
     exec_outcome := λ _, Completed |}.

(** Every reliable execution gives up. *)
Definition giving_up : World :=
  {| post_outcome := λ _, Responded 200;
     completion := λ _, first_only;
     exec_outcome := λ _, Failed (RuntimeError "gave up") |}.

(** [2.id = a|b], [2.filename = x]. *)
Definition short_files : gmap string string :=
  <["2.id" := "a|b"]> (<["2.filename" := "x"]> ∅).

(** [2.id = a|a|b], [2.filename = x|y]. *)
Definition repeated_id : gmap string string :=
  <["2.id" := "a|a|b"]> (<["2.filename" := "x|y"]> ∅).

(** [2.id = a|b] and [3.id = a|d], without file names. *)
Definition twice : gmap string string :=
  <["2.id" := "a|b"]> (<["3.id" := "a|d"]> ∅).

(** [2.id = a|b], [2.filename = x|y]. *)
Definition pair : gmap string string :=
  <["2.id" := "a|b"]> (<["2.filename" := "x|y"]> ∅).

End sample.

(** ** The rest of the program: settings, login, snapshot, upload

    The functions [main] runs before its two phases, and [upload],
    which the workers run.  Their effects are [Call]s; the events of
    the two phases are carried along as [Ran]. *)

(** Library functions taken as they are: the characters [str.strip()]
    removes, [urllib.parse.urlencode(d).encode('utf-8')], and
    [os.path.normpath(os.path.join(folder, name))]. *)
Record Library := {
  is_space : ascii → bool;
  urlencode : list (string * string) → string;
  path_join : string → string → string;
}.

Module Str.

(** [s.lstrip(chars)], [s.rstrip(chars)] and [s.strip(chars)], for the
    set of characters that [drop] accepts. *)
Fixpoint lstrip (drop : ascii → bool) (s : string) : string :=
  match s with
  | EmptyString => EmptyString
  | String c rest => if drop c then lstrip drop rest else s
  end.

Fixpoint rstrip (drop : ascii → bool) (s : string) : string :=
  match s with
  | EmptyString => EmptyString
  | String c rest =>
      match rstrip drop rest with
      | EmptyString => if drop c then EmptyString else String c EmptyString
      | kept => String c kept
      end
  end.

Definition strip (drop : ascii → bool) (s : string) : string :=
  rstrip drop (lstrip drop s).

Definition colon (c : ascii) : bool := Ascii.eqb c ":".

End Str.

(** A [<td>] of a row: its text and the [<form>]s among its children. *)
Record Cell := {
  text : option string;
  forms : list Form;
}.

(** A [<form>] of a page, with its [id] attribute. *)
Record PageForm := {
  form_id : option string;
  form_of : Form;
}.

(** A parsed page: the rows [tr.emoji_row] of the table [custom_emoji],
    each as its [<td>] children, and the forms under [body], both in
    document order. *)
Record Page := {
  emoji_rows : list (list Cell);
  body_forms : list PageForm;
}.

(** What opening a URL gives: an exception, or a page and the cookies
    left in the jar, in the order the jar yields them. *)
Inductive Fetched :=
| FetchRaised (e : Exn)
| FetchedPage (page : Page) (jar : list (string * string)).

Inductive Call :=
| Ran (ev : Event)
    (* an event of the two phases, log calls included *)
| ReadConfig (path : string)
    (* [ConfigParser.read] trying one path *)
| Input (prompt : string)
    (* [input(prompt)] *)
| GetPass
    (* [getpass.getpass()] *)
| UrlOpen (to : string) (with_headers : list (string * string)) (data : option string)
    (* [urllib.request.urlopen(Request(url, data=data, headers=headers))] *)
| OpenFile (path : string)
    (* [io.open(path, 'rb')] *)
| UploadPost (to : string) (with_headers data : list (string * string)) (img : string).
    (* [requests.post(url, headers=..., data=..., files={'img': file})] *)

Definition IO (A : Type) : Type := list Call * (Exn + A).

Global Instance IO_ret : MRet IO := λ A a, ([], inr a).

Global Instance IO_bind : MBind IO := λ A B k m,
  match m.2 with
  | inl e => (m.1, inl e)
  | inr a => (m.1 ++ (k a).1, (k a).2)
  end.

Definition fail {A} (e : Exn) : IO A := ([], inl e).

Definition call (c : Call) : IO unit := ([c], inr tt).

Definition say (level : Level) (message : string) : IO unit :=
  call (Ran (Log level message)).

(** Running the phases inside the whole program. *)
Definition ran {A} (m : M A) : IO A := (Ran <$> m.1, m.2).

(** [l[0]]. *)
Definition first_of {A} (l : list A) : IO A :=
  match l with
  | x :: _ => mret x
  | [] => fail (OtherException "IndexError" "list index out of range")
  end.

(** A loop that appends one result per element. *)
Fixpoint collect {A B} (f : A → IO B) (l : list A) : IO (list B) :=
  match l with
  | [] => mret []
  | x :: rest => y ← f x; ys ← collect f rest; mret (y :: ys)
  end.

(** What [ConfigParser.read] meets at a path. *)
Inductive ConfigFile :=
| Unreadable
    (* [open] raises [OSError]: the path is passed over *)
| Unparsable (e : Exn)
    (* the file opens and the parser raises: a line before any section
       header, a section or an option that comes twice, an option
       line it cannot read *)
| Parsed (sections : gmap string (gmap string string)).
    (* what the parser stores: section ↦ option ↦ value, the default
       section under its name [DEFAULT], the option names in lower
       case as [optionxform] leaves them, the values as written *)

(** What lies outside the process for these functions. *)
Record Outside := {
  config_file : string → ConfigFile;
  typed : string → string;              (* the answer to a prompt *)
  password : string;                    (* the answer to [getpass] *)
  login_page : nat → Fetched;           (* by rank of the login request *)
  emoji_page : Fetched;                 (* the page [get_current_state] opens *)
  add_page : Fetched;                   (* the page [upload] opens *)
  file_error : string → option Exn;     (* why a path cannot be opened *)
  upload_post : PostOutcome;            (* the POST of [upload] *)
}.

(** *** [load_settings] *)

Definition settings_paths (module_file config_path : string) : list string :=
  [module_file +:+ ".settings"; "/etc/slack_emoji_uploader/config"; config_path].

Definition loading_msg (paths : list string) : string :=
  "Loading settings from " +:+ quoted (Py.join (Py.dq +:+ ", " +:+ Py.dq) paths).
Definition profile_msg (profile : string) : string :=
  "Loading " +:+ quoted profile +:+ " profile from settings".
Definition no_profile_msg (profile : string) : string :=
  "Profile " +:+ quoted profile +:+ " was not found in settings".

(** Reading one more file into the parser: its sections join those
    read so far, its options replace those of the same name. *)
Definition read_into (parser file : gmap string (gmap string string))
    : gmap string (gmap string string) :=
  union_with (λ fresh old, Some (fresh ∪ old)) file parser.

(** [settings.read(paths)]: a path that cannot be opened is passed
    over; a file that opens and does not parse ends the reading with
    the parser's exception. *)
Definition read_one (o : Outside) (parser : gmap string (gmap string string))
    (path : string) : IO (gmap string (gmap string string)) :=
  call (ReadConfig path) ;;
  match config_file o path with
  | Unreadable => mret parser
  | Unparsable e => fail e
  | Parsed file => mret (read_into parser file)
  end.

Fixpoint config_read_from (o : Outside) (parser : gmap string (gmap string string))
    (paths : list string) : IO (gmap string (gmap string string)) :=
  match paths with
  | [] => mret parser
  | path :: rest => parser ← read_one o parser path; config_read_from o parser rest
  end.

Definition config_read (o : Outside) (paths : list string)
    : IO (gmap string (gmap string string)) :=
  config_read_from o ∅ paths.

(** [settings.has_section(profile)]: the default section is not one. *)
Definition has_section (parser : gmap string (gmap string string)) (profile : string) : bool :=
  bool_decide (profile ≠ "DEFAULT" ∧ is_Some (parser !! profile)).

(** [settings[profile]], a [SectionProxy], as what its lookups see:
    the options of the section, then the defaults, with the values as
    stored.  The reads of the program go through [ConfigParser.get]
    and [ConfigParser.getitem] below, which interpolate them. *)
Definition section_proxy (parser : gmap string (gmap string string)) (profile : string)
    : gmap string string :=
  default ∅ (parser !! profile) ∪ default ∅ (parser !! "DEFAULT").

(** [settings.add_section(profile)], for a profile [has_section] denied. *)
Definition add_section (parser : gmap string (gmap string string)) (profile : string)
    : IO (gmap string (gmap string string)) :=
  if decide (profile = "DEFAULT")
  then fail (ValueError "Invalid section name: 'DEFAULT'")
  else mret (<[profile := ∅]> parser).

Definition load_settings (o : Outside) (module_file config_path profile : string)
    : IO (gmap string string) :=
  let paths := settings_paths module_file config_path in
  say DEBUG (loading_msg paths) ;;
  parser ← config_read o paths;
  if has_section parser profile then
    say DEBUG (profile_msg profile) ;;
    mret (section_proxy parser profile)
  else
    say DEBUG (no_profile_msg profile) ;;
    parser ← add_section parser profile;
    mret (section_proxy parser profile).

(** *** Reading an option of the profile

    [configparser] of the standard library, as far as the program
    uses it on the [SectionProxy] that [load_settings] returns: the
    name of the option is lower-cased, and the stored value is
    interpolated on every read ([BasicInterpolation]).  The texts of
    the exceptions are abridged. *)

Module ConfigParser.

Definition optionxform (name : string) : string := Py.lower name.

Definition KeyError (key : string) : Exn :=
  OtherException "KeyError" ("'" +:+ key +:+ "'").

(** ['%' must be followed by '%' or '('] *)
Definition lone_percent : Exn :=
  OtherException "InterpolationSyntaxError" "'%' must be followed by '%' or '('".

(** [bad interpolation variable reference]: what follows ['%('] does
    not match [%\(([^)]+)\)s]. *)
Definition bad_reference : Exn :=
  OtherException "InterpolationSyntaxError" "bad interpolation variable reference".

Definition InterpolationMissingOptionError (reference : string) : Exn :=
  OtherException "InterpolationMissingOptionError" reference.

Definition InterpolationDepthError : Exn :=
  OtherException "InterpolationDepthError" "Recursion limit exceeded in value substitution".

Definition MAX_INTERPOLATION_DEPTH : nat := 10.

(** ["%" in v] *)
Fixpoint has_percent (s : string) : bool :=
  match s with
  | EmptyString => false
  | String c rest => Ascii.eqb c "%" || has_percent rest
  end.

(** Where the loop of [_interpolate_some] stands in the value. *)
Inductive Scan :=
| Plain                     (* outside a reference *)
| Percent                   (* after a ['%'] *)
| Name (name : string)      (* after ['%('], with the name read so far *)
| Closed (name : string).   (* after ['%(name)'], where an ['s'] is due *)

(** The loop of [_interpolate_some] over [rest], left to right: text
    is copied, ['%%'] gives ['%'], ['%(name)s'] gives the value of the
    option [name], itself interpolated one level [deeper] when it holds
    a ['%'], and any other use of ['%'] raises. *)
Fixpoint scan (deeper : string → Exn + string) (map : gmap string string)
    (state : Scan) (rest : string) : Exn + string :=
  match rest with
  | EmptyString =>
      match state with
      | Plain => inr EmptyString
      | Percent => inl lone_percent
      | Name _ | Closed _ => inl bad_reference
      end
  | String c rest =>
      match state with
      | Plain =>
          if Ascii.eqb c "%" then scan deeper map Percent rest
          else match scan deeper map Plain rest with
               | inl e => inl e
               | inr tail => inr (String c tail)
               end
      | Percent =>
          if Ascii.eqb c "%" then
            match scan deeper map Plain rest with
            | inl e => inl e
            | inr tail => inr (String "%" tail)
            end
          else if Ascii.eqb c "(" then scan deeper map (Name EmptyString) rest
          else inl lone_percent
      | Name name =>
          if Ascii.eqb c ")" then
            match name with
            | EmptyString => inl bad_reference
            | _ => scan deeper map (Closed name) rest
            end
          else scan deeper map (Name (name +:+ String c EmptyString)) rest
      | Closed name =>
          if Ascii.eqb c "s" then
            match map !! optionxform name with
            | None => inl (InterpolationMissingOptionError name)
            | Some v =>
                match (if has_percent v then deeper v else inr v) with
                | inl e => inl e
                | inr expansion =>
                    match scan deeper map Plain rest with
                    | inl e => inl e
                    | inr tail => inr (expansion +:+ tail)
                    end
                end
            end
          else inl bad_reference
      end
  end.

(** [_interpolate_some], which raises beyond the depth of
    [MAX_INTERPOLATION_DEPTH]: [remaining] is how many levels are left. *)
Fixpoint interpolate_some (remaining : nat) (map : gmap string string) (rest : string)
    : Exn + string :=
  match remaining with
  | 0 => inl InterpolationDepthError
  | S remaining => scan (interpolate_some remaining map) map Plain rest
  end.

(** [before_get]: the value of an option as a read returns it. *)
Definition before_get (map : gmap string string) (value : string) : Exn + string :=
  interpolate_some MAX_INTERPOLATION_DEPTH map value.

(** [name in settings], which [name in settings.keys()] comes to. *)
Definition has_option (settings : gmap string string) (name : string) : bool :=
  bool_decide (is_Some (settings !! optionxform name)).

(** [settings.get(name)]: [None] for an option that is not there. *)
Definition get (settings : gmap string string) (name : string) : Exn + option string :=
  match settings !! optionxform name with
  | None => inr None
  | Some value =>
      match before_get settings value with
      | inl e => inl e
      | inr v => inr (Some v)
      end
  end.

(** [settings[name]]: [KeyError] for an option that is not there. *)
Definition getitem (settings : gmap string string) (name : string) : Exn + string :=
  match settings !! optionxform name with
  | None => inl (KeyError name)
  | Some value => before_get settings value
  end.

End ConfigParser.

(** The profile as its reads show it: every option whose value
    interpolates, with the value read. *)
Definition as_read (settings : gmap string string) : gmap string string :=
  omap (λ value, match ConfigParser.before_get settings value with
                 | inl _ => None
                 | inr v => Some v
                 end) settings.

(** The option, if it is stored, has a value that interpolates. *)
Definition reads_well (settings : gmap string string) (key : string) : Prop :=
  ∀ value, settings !! key = Some value →
           ∃ v, ConfigParser.before_get settings value = inr v.

(** ** The two phases over the profile as stored

    The definitions of the two phases with the reads of the profile
    made explicit: [settings] is the [SectionProxy], every
    [settings[key]] and [settings.get(key)] interpolates, and a value
    that does not interpolate raises where it is read. *)

Module stored.

(** What a read returns or raises, within the phases. *)
Definition reading {A} (r : Exn + A) : M A := ([], r).

(** ['{}.id'.format(image_id) in settings.keys()
     and image.id in settings['{}.id'.format(image_id)].split('|')] *)
Definition configured_at (settings : gmap string string) (identifier : string)
    (image_id : Z) : M bool :=
  if ConfigParser.has_option settings (key_id image_id) then
    ids ← reading (ConfigParser.getitem settings (key_id image_id));
    mret (bool_decide (identifier ∈ Py.split "|" ids))
  else mret false.

(** [tuple(...)] of the generator: it is run to its end, or to the
    first read that raises, before anything is logged. *)
Definition images_to_remove (a : args.t) (settings : gmap string string)
    (existing_images : list Image) : M (list Image) :=
  for_each (λ found image,
      for_each (λ found image_id,
          chosen ← configured_at settings (id image) image_id;
          mret (if chosen : bool then found ++ [image] else found))
        found (Py.range (args.start a) (args.finish a + 1)))
    [] existing_images.

Definition removal_phase (a : args.t) (w : World) (settings : gmap string string)
    (configurations : Settings) (existing_images : list Image) : M (list Image) :=
  if args.remove a then
    to_remove ← images_to_remove a settings existing_images;
    (if args.dry_run a
     then log INFO (would_remove_msg to_remove)
     else remove w to_remove configurations) ;;
    remove_each existing_images to_remove
  else mret existing_images.

(** The images of one position: the id key is read, then the
    file-name key. *)
Definition images_of (settings : gmap string string) (image_id : Z) : M (list Image) :=
  ids ← reading (ConfigParser.getitem settings (key_id image_id));
  files ← reading (ConfigParser.get settings (key_filename image_id));
  mret ((λ item : string * string,
           {| id := item.1; filename := Some item.2; remove_form := None |})
        <$> Py.dict (zip (Py.split "|" ids) (Py.split "|" (Py.or_empty files)))).

Definition position (a : args.t) (w : World) (settings : gmap string string)
    (existing_images : list Image) (st : Loop) (image_id : Z) : M Loop :=
  if ConfigParser.has_option settings (key_id image_id) then
    images ← images_of settings image_id;
    for_each (consider a w existing_images) st images
  else log WARNING (not_found_msg image_id) ;; mret st.

Definition upload_loop (a : args.t) (w : World) (settings : gmap string string)
    (existing_images : list Image) : M Loop :=
  for_each (position a w settings existing_images)
    {| uploading := []; submitted := 0; waited := 0 |}
    (Py.range (args.start a) (args.finish a + 1)).

Definition upload_phase (a : args.t) (w : World) (settings : gmap string string)
    (existing_images : list Image) : M unit :=
  if args.upload a then
    ThreadPoolExecutor (args.threads a) ;;
    st ← upload_loop a w settings existing_images;
    emit (WaitAll (uploading st))
  else mret tt.

Definition main (a : args.t) (w : World) (settings : gmap string string)
    (configurations : Settings) (existing_images : list Image) : M unit :=
  view ← removal_phase a w settings configurations existing_images;
  upload_phase a w settings view.

End stored.

(** *** [process_cookies] and [log_in_to_slack] *)

(** ['{};'.format('; '.join('{}={}'.format(name, value) ...))]. *)
Definition cookie_header (jar : list (string * string)) : string :=
  Py.join "; " ((λ cookie, cookie.1 +:+ "=" +:+ cookie.2) <$> jar) +:+ ";".

Definition process_cookies (fetched : Fetched) (to : string)
    (with_headers : list (string * string)) (data : option string)
    : IO (Page * string) :=
  call (UrlOpen to with_headers data) ;;
  match fetched with
  | FetchRaised e => fail e
  | FetchedPage page jar => mret (page, cookie_header jar)
  end.

Definition hidden_of (form : PageForm) : list (string * string) :=
  Py.dict (hidden_inputs (form_of form)).

Definition log_in_to_slack (lib : Library) (o : Outside) (slack_team : string)
    (with_headers : list (string * string)) : IO string :=
  let log_in_url := "https://" +:+ slack_team +:+ ".slack.com/" in
  say DEBUG "Requesting user name" ;;
  call (Input "Email Address: ") ;;
  let email_address := typed o "Email Address: " in
  say DEBUG ("Requesting password for " +:+ quoted email_address) ;;
  call GetPass ;;
  response ← process_cookies (login_page o 0) log_in_url with_headers None;
  sign_in_form ←
    first_of (filter (λ form, form_id form = Some "signin_form") (body_forms response.1));
  let form_data :=
    Py.dict_set "password" (password o)
      (Py.dict_set "email" email_address (hidden_of sign_in_form)) in
  response ← process_cookies (login_page o 1) log_in_url with_headers
               (Some (urlencode lib form_data));
  if decide (response.2 = ";") then
    mfa_form ← first_of (body_forms response.1);
    call (Input "Two Factor Authentication Code: ") ;;
    let form_data :=
      Py.dict_set "2fa_code" (typed o "Two Factor Authentication Code: ")
        (hidden_of mfa_form) in
    response ← process_cookies (login_page o 2) log_in_url with_headers
                 (Some (urlencode lib form_data));
    mret response.2
  else mret response.2.

(** *** [get_current_state] *)

(** One row of the table: the name is the text of the second cell,
    stripped of white space and then of colons; the form is the first
    one in the fourth cell. *)
Definition row_image (lib : Library) (row : list Cell) : IO Image :=
  name_cell ← first_of (take 1 (drop 1 row));
  name ← match text name_cell with
         | Some t => mret (Str.strip Str.colon (Str.strip (is_space lib) t))
         | None => fail (AttributeError "'NoneType' object has no attribute 'strip'")
         end;
  form ← first_of (take 1 (drop 3 row) ≫= forms);
  mret {| id := name; filename := None; remove_form := Some form |}.

Definition get_current_state (lib : Library) (o : Outside) (settings : Settings)
    : IO (list Image) :=
  call (UrlOpen (url (slack settings)) (headers settings) None) ;;
  match emoji_page o with
  | FetchRaised e => fail e
  | FetchedPage page _ => collect (row_image lib) (emoji_rows page)
  end.

(** *** [upload] *)

Definition opening_msg (image_path : string) : string :=
  "Opening " +:+ quoted image_path +:+ " for uploading".

Definition upload (lib : Library) (o : Outside) (image : Image) (settings : Settings)
    : IO string :=
  call (UrlOpen (url (slack settings)) (headers settings) None) ;;
  page ← match add_page o with
         | FetchRaised e => fail e
         | FetchedPage page _ => mret page
         end;
  upload_form ←
    first_of (filter (λ form, form_id form = Some "addemoji") (body_forms page));
  let form_data :=
    Py.dict_set "mode" "data" (Py.dict_set "name" (id image) (hidden_of upload_form)) in
  file ← match filename image with
         | Some file => mret file
         | None =>
             fail (OtherException "TypeError"
                     "expected str, bytes or os.PathLike object, not NoneType")
         end;
  let image_path := path_join lib (upload_folder settings) file in
  say DEBUG (opening_msg image_path) ;;
  call (OpenFile image_path) ;;
  match file_error o image_path with Some e => fail e | None => mret tt end ;;
  call (UploadPost (url (slack settings)) (headers settings) form_data image_path) ;;
  match upload_post o with Responded _ => mret tt | PostRaised e => fail e end ;;
  mret (id image).

(** *** [main], from the parsed command line to the snapshot *)

Module cli.
Record t := {
  config : string;
  profile : string;
  upload_folder : string;
  module_file : string;           (* [__file__] *)
}.
End cli.

(** What a read returns or raises, within the program. *)
Definition io_reading {A} (r : Exn + A) : IO A := ([], r).

(** [initial_headers], lines 325 to 327. *)
Definition initial_headers (settings : gmap string string)
    : Exn + list (string * string) :=
  if ConfigParser.has_option settings "browser.user_agent" then
    match ConfigParser.getitem settings "browser.user_agent" with
    | inl e => inl e
    | inr user_agent => inr [("User-Agent", user_agent)]
    end
  else inr [].

(** Lines 324 to 341.  [settings['slack.team']] is read for the URL
    and once more for the login, with the same outcome. *)
Definition main_setup (lib : Library) (o : Outside) (c : cli.t)
    : IO (gmap string string * Settings * list Image) :=
  settings ← load_settings o (cli.module_file c) (cli.config c) (cli.profile c);
  initial_headers ← io_reading (initial_headers settings);
  slack_team ← io_reading (ConfigParser.getitem settings "slack.team");
  configured ← io_reading (ConfigParser.get settings "slack.cookie");
  slack_cookie ← match configured with
                 | Some (String _ _ as configured) => mret configured
                 | _ => log_in_to_slack lib o slack_team initial_headers
                 end;
  let configurations :=
    {| slack := {| url := "https://" +:+ slack_team +:+ ".slack.com/customize/emoji";
                   cookie := slack_cookie |};
       headers := Py.dict_set "Cookie" slack_cookie initial_headers;
       upload_folder := cli.upload_folder c |} in
  existing_images ← get_current_state lib o configurations;
  mret (settings, configurations, existing_images).

Definition main_whole (lib : Library) (o : Outside) (c : cli.t) (a : args.t) (w : World)
    : IO unit :=
  setup ← main_setup lib o c;
  ran (stored.main a w setup.1.1 setup.1.2 setup.2).

(** The value of an option of a section in the first file, among
    those that can be read, that has it; [paths] are tried in order. *)
Definition setting_in (file : gmap string (gmap string string)) (section key : string)
    : option string :=
  match file !! section with
  | Some options => options !! key
  | None => None
  end.

Fixpoint first_setting (o : Outside) (paths : list string) (section key : string)
    : option string :=
  match paths with
  | [] => None
  | path :: rest =>
      match config_file o path with
      | Parsed file =>
          match setting_in file section key with
          | Some value => Some value
          | None => first_setting o rest section key
          end
      | _ => first_setting o rest section key
      end
  end.

(** The stored value of an option of a profile: what its section gives
    it in the last of the files that has it there, else what the
    section [DEFAULT] gives it, likewise. *)
Definition prevailing (o : Outside) (paths : list string) (profile key : string)
    : option string :=
  match first_setting o (reverse paths) profile key with
  | Some value => Some value
  | None => first_setting o (reverse paths) "DEFAULT" key
  end.

(** No file among [paths] opens without parsing. *)
Definition all_parse (o : Outside) (paths : list string) : Prop :=
  ∀ path e, path ∈ paths → config_file o path ≠ Unparsable e.

(** The parser after [paths] were read, without the effects. *)
Definition read_all (o : Outside) (parser : gmap string (gmap string string))
    (paths : list string) : gmap string (gmap string string) :=
  foldl (λ parser path,
           match config_file o path with
           | Parsed file => read_into parser file
           | _ => parser
           end) parser paths.

(** A row [get_current_state] can turn into an image: its second cell
    has a text and its fourth cell holds a form. *)
Definition row_ok (row : list Cell) : Prop :=
  (∃ cell t, row !! 1 = Some cell ∧ text cell = Some t)
  ∧ (∃ cell form others, row !! 3 = Some cell ∧ forms cell = form :: others).

(** [d.get(k)] on a [dict]. *)
Fixpoint dict_get {K V} `{EqDecision K} (k : K) (d : list (K * V)) : option V :=
  match d with
  | [] => None
  | (k', v) :: rest => if decide (k = k') then Some v else dict_get k rest
  end.

(** The distinct elements of a list, each where it first stands: the
    order in which a [dict] keeps its keys. *)
Definition first_occurrences {A} `{EqDecision A} (l : list A) : list A :=
  foldl (λ seen x, if decide (x ∈ seen) then seen else seen ++ [x]) [] l.

(** What a trace announces: the messages of the main thread's
    [log.info] calls, which in a dry run are the plan. *)
Definition announced (tr : list Event) : list string :=
  omap (λ ev, match ev with Log INFO message => Some message | _ => None end) tr.

(** How many times a trace shows the main thread waiting for a first
    completion. *)
Definition waits (tr : list Event) : nat :=
  length (omap (λ ev, match ev with WaitFirst not_done => Some not_done | _ => None end) tr).

(** The requests and the prompts of a trace. *)
Definition requests (tr : list Call) : list (string * list (string * string) * option string) :=
  omap (λ c, match c with UrlOpen to hs data => Some (to, hs, data) | _ => None end) tr.

Definition prompts (tr : list Call) : list Call :=
  omap (λ c, match c with Input _ | GetPass => Some c | _ => None end) tr.

(** The events of the two phases within a trace. *)
Definition phase_events (tr : list Call) : list Event :=
  omap (λ c, match c with Ran ev => Some ev | _ => None end) tr.

(** A trace whose events of the two phases are all log calls. *)
Definition only_logs (tr : list Call) : Prop :=
  ∀ ev, Ran ev ∈ tr → ∃ level message, ev = Log level message.

(** ** Sample data for the rest of the program *)

Module scene.

(** Stand-ins for the library functions, right on plain ASCII names. *)
Definition ascii_space (c : ascii) : bool :=
  bool_decide (nat_of_ascii c ∈ [9; 10; 11; 12; 13; 28; 29; 30; 31; 32]).

Definition library : Library :=
  {| is_space := ascii_space;
     urlencode := λ fields, Py.join "&" ((λ kv, kv.1 +:+ "=" +:+ kv.2) <$> fields);
     path_join := λ folder name, folder +:+ "/" +:+ name |}.

Definition empty_page : Page := {| emoji_rows := []; body_forms := [] |}.

Definition form (row : nat) (inputs : list (string * string)) : Form :=
  {| node := row; hidden_inputs := inputs |}.

(** A row of the emoji table: an image cell, the name, the type, and
    the cell with the removal form. *)
Definition row (shown name : string) (n : nat) : list Cell :=
  [ {| text := None; forms := [] |};
    {| text := Some shown; forms := [] |};
    {| text := Some "Image"; forms := [] |};
    {| text := None; forms := [form n [("remove", name)]] |} ].

Definition sign_in_page : Page :=
  {| emoji_rows := [];
     body_forms := [ {| form_id := Some "signin_form";
                        form_of := form 0 [("crumb", "c1"); ("email", "preset")] |} ] |}.

Definition second_factor_page : Page :=
  {| emoji_rows := [];
     body_forms := [ {| form_id := None; form_of := form 0 [("sig", "s1")] |} ] |}.

Definition emoji_listing : Page :=
  {| emoji_rows := [row " :a: " "a" 0; row ":b:" "b" 1];
     body_forms := [ {| form_id := Some "addemoji";
                        form_of := form 9 [("crumb", "c2"); ("mode", "url")] |} ] |}.

(** The configuration files of the tests of the repository. *)
Definition default_section : gmap string (gmap string string) :=
  {[ "DEFAULT" := {[ "section.name" := "DEFAULT" ]} ]}.

Definition other_section : gmap string (gmap string string) :=
  {[ "other" := {[ "section.name" := "other" ]} ]}.

Definition team_section : gmap string (gmap string string) :=
  {[ "DEFAULT" := {[ "slack.team" := "team"; "slack.cookie" := "d=1" ]} ]}.

(** An outside where the only readable file is the one at [config]
    and holds [file], the login page is [first], the login leaves the
    cookies [jar], the emoji page is [emoji_listing], and the only
    file that cannot be opened is [/emoji/missing.png]. *)
Definition outside_with (first : Page) (file : gmap string (gmap string string))
    (jar : list (string * string)) : Outside :=
  {| config_file := λ path, if decide (path = "config") then Parsed file else Unreadable;
     typed := λ prompt, if decide (prompt = "Email Address: ") then "me@example.com"
                        else "123456";
     password := "secret";
     login_page := λ rank,
       match rank with
       | 0 => FetchedPage first []
       | 1 => FetchedPage second_factor_page jar
       | _ => FetchedPage empty_page [("d", "2")]
       end;
     emoji_page := FetchedPage emoji_listing [];
     add_page := FetchedPage emoji_listing [];
     file_error := λ path,
       if decide (path = "/emoji/missing.png")
       then Some (OtherException "FileNotFoundError" "/emoji/missing.png")
       else None;
     upload_post := Responded 200 |}.

Definition outside (file : gmap string (gmap string string))
    (jar : list (string * string)) : Outside :=
  outside_with sign_in_page file jar.

(** [slack.team] without [slack.cookie]. *)
Definition team_only : gmap string (gmap string string) :=
  {[ "DEFAULT" := {[ "slack.team" := "team" ]} ]}.

(** A team, its cookie, and one managed emoji at position 2. *)
Definition managed_section : gmap string (gmap string string) :=
  {[ "DEFAULT" := {[ "slack.team" := "team"; "slack.cookie" := "d=1";
                     "2.id" := "a"; "2.filename" := "a.png" ]} ]}.

(** A cookie written with a doubled percent sign, which reads as one. *)
Definition escaped_section : gmap string (gmap string string) :=
  {[ "DEFAULT" := {[ "slack.team" := "team"; "slack.cookie" := "d=a%%2Fb" ]} ]}.

(** The same cookie, percent-encoded and written as it is. *)
Definition encoded_section : gmap string (gmap string string) :=
  {[ "DEFAULT" := {[ "slack.team" := "team"; "slack.cookie" := "d=a%2Fb" ]} ]}.


(** A profile whose position 2 refers to another option. *)
Definition referring : gmap string string :=
  {[ "2.id" := "%(prefix)s_a|%(prefix)s_b"; "prefix" := "party" ]}.

(** An outside whose file at [config] opens and does not parse. *)
Definition outside_unparsable : Outside :=
  {| config_file := λ path,
       if decide (path = "config")
       then Unparsable (OtherException "MissingSectionHeaderError" "config")
       else Unreadable;
     typed := λ _, EmptyString;
     password := EmptyString;
     login_page := λ _, FetchedPage empty_page [];
     emoji_page := FetchedPage empty_page [];
     add_page := FetchedPage empty_page [];
     file_error := λ _, None;
     upload_post := Responded 200 |}.

Definition command_line : cli.t :=
  {| cli.config := "config"; cli.profile := "default";
     cli.upload_folder := "/emoji"; cli.module_file := "/opt/uploader/__init__.py" |}.

End scene.

(** * Properties *)

Close Scope string_scope.

(** ** The monad *)

Section monad.
Context {A B : Type}.
Implicit Types (m : M A) (k : A → M B).

Lemma bind_inr m k a :
  m.2 = inr a → (m ≫= k) = (m.1 ++ (k a).1, (k a).2).
Proof. destruct m as [tr [e|a']]; simpl; intros [= <-]; reflexivity. Qed.

Lemma bind_inl m k e :
  m.2 = inl e → (m ≫= k) = (m.1, inl e).
Proof. destruct m as [tr [e'|a']]; simpl; intros [= <-]; reflexivity. Qed.

Lemma bind_result_inr m k b :
  (m ≫= k).2 = inr b → ∃ a, m.2 = inr a ∧ (k a).2 = inr b.
Proof. destruct m as [tr [e|a]]; simpl; [discriminate | eauto]. Qed.

Lemma bind_trace_prefix m k : m.1 `prefix_of` (m ≫= k).1.
Proof.
  destruct m as [tr [e|a]]; simpl; [reflexivity | by apply prefix_app_r].
Qed.

Lemma bind_Forall (P : Event → Prop) m k :
  Forall P m.1 → (∀ a, Forall P (k a).1) → Forall P (m ≫= k).1.
Proof.
  destruct m as [tr [e|a]]; simpl; intros Hm Hk; [done |].
  apply Forall_app; auto.
Qed.
End monad.

Lemma for_each_Forall {A S} (P : Event → Prop) (body : S → A → M S) l :
  (∀ s x, x ∈ l → Forall P (body s x).1) → ∀ s, Forall P (for_each body s l).1.
Proof.
  induction l as [|x l IH]; intros Hbody s; simpl; [constructor |].
  apply bind_Forall; [apply Hbody; left |].
  intros s'. apply IH. intros ? ? ?. apply Hbody. by right.
Qed.

Lemma for_each_cons {A S} (body : S → A → M S) s x l :
  for_each body s (x :: l) = body s x ≫= λ s', for_each body s' l.
Proof. done. Qed.

(** ** [list.remove] and the update of the working view *)

Section list_remove.
Context {A : Type} `{EqDecision A}.
Implicit Types (x : A) (l : list A).

Lemma list_remove_Some x l l' :
  Py.list_remove x l = Some l' → l ≡ₚ x :: l'.
Proof.
  revert l'. induction l as [|y l IH]; intros l'; simpl; [discriminate |].
  case_decide as Hxy.
  - intros [= <-]. by subst.
  - intros Hl. apply fmap_Some in Hl as (l'' & Hl'' & ->).
    rewrite (IH _ Hl''). apply Permutation_swap.
Qed.


Lemma list_remove_middle x pre l :
  x ∉ pre → Py.list_remove x (pre ++ x :: l) = Some (pre ++ l).
Proof.
  induction pre as [|y pre IH]; simpl; intros Hx.
  - by rewrite decide_True.
  - apply not_elem_of_cons in Hx as [Hxy Hx].
    rewrite decide_False by done. by rewrite IH.
Qed.
End list_remove.

Lemma occurrences_app x l1 l2 :
  occurrences x (l1 ++ l2) = occurrences x l1 + occurrences x l2.
Proof. unfold occurrences. by rewrite filter_app, length_app. Qed.

Lemma occurrences_perm x l1 l2 :
  l1 ≡ₚ l2 → occurrences x l1 = occurrences x l2.
Proof. unfold occurrences. by intros ->. Qed.

Lemma occurrences_pos x l : x ∈ l ↔ 0 < occurrences x l.
Proof.
  unfold occurrences. split.
  - intros Hx. assert (x ∈ filter (λ y, y = x) l) as Hin
      by (by apply list_elem_of_filter).
    destruct (filter _ l); [by apply elem_of_nil in Hin | simpl; lia].
  - intros Hlen. destruct (filter (λ y, y = x) l) as [|y l'] eqn:Hf;
      [simpl in Hlen; lia |].
    assert (y ∈ filter (λ y, y = x) l) as Hy by (rewrite Hf; left).
    apply list_elem_of_filter in Hy as [-> ?]. done.
Qed.

Lemma remove_each_trace existing to_remove :
  (remove_each existing to_remove).1 = [].
Proof.
  unfold remove_each. revert existing.
  induction to_remove as [|x rs IH]; intros existing; simpl; [done |].
  destruct (Py.list_remove x existing) as [view|]; simpl; [apply IH | done].
Qed.


Lemma remove_each_perm existing to_remove view :
  (remove_each existing to_remove).2 = inr view →
  existing ≡ₚ to_remove ++ view.
Proof.
  unfold remove_each. revert existing.
  induction to_remove as [|x rs IH]; intros existing; simpl.
  - by intros [= <-].
  - destruct (Py.list_remove x existing) as [view'|] eqn:Hrm; simpl; [| discriminate].
    intros Hrest. rewrite (list_remove_Some _ _ _ Hrm).
    by rewrite (IH _ Hrest).
Qed.

(** Removing, one by one, the elements that satisfy [P] leaves those
    that do not, in their order. *)
Lemma remove_each_filter (P : Image → Prop) `{∀ x, Decision (P x)} pre l :
  Forall (λ x, ¬ P x) pre →
  remove_each (pre ++ l) (filter P l) = ([], inr (pre ++ filter (λ x, ¬ P x) l)).
Proof.
  unfold remove_each. revert pre.
  induction l as [|y l IH]; intros pre Hpre; simpl.
  - by rewrite !app_nil_r.
  - rewrite !filter_cons. destruct (decide (P y)) as [Hy|Hy].
    + rewrite decide_False by tauto. simpl.
      rewrite list_remove_middle.
      * unfold M_bind; simpl. rewrite IH by done. done.
      * intros Hin. rewrite Forall_forall in Hpre. by apply (Hpre y).
    + rewrite decide_True by done.
      replace (pre ++ y :: l) with ((pre ++ [y]) ++ l) by (by rewrite <- app_assoc).
      rewrite IH.
      * by rewrite <- app_assoc.
      * apply Forall_app. split; [done | by constructor].
Qed.

Lemma bind_mret_l {A B} (x : A) (k : A → M B) : (mret x ≫= k) = k x.
Proof. unfold mbind, M_bind, mret, M_ret; simpl. by destruct (k x). Qed.




(** ** The planned removals *)

Lemma elem_of_range (k start stop : Z) :
  k ∈ Py.range start stop ↔ (start ≤ k < stop)%Z.
Proof.
  unfold Py.range. rewrite list_elem_of_fmap. split.
  - intros (i & -> & Hi). apply elem_of_seq in Hi. lia.
  - intros Hk. exists (Z.to_nat (k - start)). split; [lia |].
    apply elem_of_seq. lia.
Qed.

Lemma bind_singletons {K} (c : K → bool) (x : Image) (ks : list K) :
  (ks ≫= λ k, if c k then [x] else []) = replicate (length (filter (λ k, c k) ks)) x.
Proof.
  induction ks as [|k ks IH]; [done |].
  rewrite bind_cons, filter_cons, IH.
  destruct (c k).
  - by rewrite decide_True by done.
  - by rewrite decide_False by (simpl; tauto).
Qed.

Lemma images_to_remove_cons a settings x l :
  images_to_remove a settings (x :: l) =
  replicate (times_selected a settings x) x ++ images_to_remove a settings l.
Proof.
  unfold images_to_remove, times_selected.
  by rewrite bind_cons, bind_singletons.
Qed.

Lemma images_to_remove_nil a settings : images_to_remove a settings [] = [].
Proof. done. Qed.

Lemma occurrences_replicate x y n :
  occurrences x (replicate n y) = if decide (y = x) then n else 0.
Proof.
  unfold occurrences. induction n as [|n IH]; simpl; [by case_decide |].
  rewrite filter_cons. destruct (decide (y = x)); simpl; by rewrite IH.
Qed.

Lemma occurrences_cons x y l :
  occurrences x (y :: l) = (if decide (y = x) then 1 else 0) + occurrences x l.
Proof. unfold occurrences. rewrite filter_cons. by case_decide. Qed.

Lemma occurrences_images_to_remove a settings x l :
  occurrences x (images_to_remove a settings l) =
  times_selected a settings x * occurrences x l.
Proof.
  induction l as [|y l IH]; [rewrite images_to_remove_nil; unfold occurrences; simpl; lia |].
  rewrite images_to_remove_cons, occurrences_app, occurrences_replicate,
    occurrences_cons, IH.
  case_decide; subst; lia.
Qed.

Lemma selected_times a settings x :
  selected a settings x ↔ 0 < times_selected a settings x.
Proof.
  unfold selected, times_selected. rewrite Exists_exists. split.
  - intros (k & Hk & Hc).
    assert (k ∈ filter (λ k, configured_at settings (id x) k)
                  (Py.range (args.start a) (args.finish a + 1))) as Hin
      by (by apply list_elem_of_filter).
    destruct (filter _ _); [by apply elem_of_nil in Hin | simpl; lia].
  - intros Hlen.
    destruct (filter (λ k, configured_at settings (id x) k)
                (Py.range (args.start a) (args.finish a + 1))) as [|k ks] eqn:Hf;
      [simpl in Hlen; lia |].
    assert (k ∈ filter (λ k, configured_at settings (id x) k)
                  (Py.range (args.start a) (args.finish a + 1))) as Hin
      by (rewrite Hf; left).
    apply list_elem_of_filter in Hin as [? ?]. eauto.
Qed.

Lemma elem_of_images_to_remove a settings x l :
  x ∈ images_to_remove a settings l ↔ x ∈ l ∧ selected a settings x.
Proof.
  rewrite !occurrences_pos, occurrences_images_to_remove, selected_times. nia.
Qed.

(** A removal loop that comes through has met no image twice. *)
Lemma remove_each_once a settings existing view x :
  (remove_each existing (images_to_remove a settings existing)).2 = inr view →
  x ∈ existing → times_selected a settings x ≤ 1.
Proof.
  intros Hview Hx. apply remove_each_perm in Hview.
  apply (occurrences_perm x) in Hview.
  rewrite occurrences_app, occurrences_images_to_remove in Hview.
  apply occurrences_pos in Hx. nia.
Qed.

Lemma images_to_remove_once a settings l :
  (∀ x, x ∈ l → times_selected a settings x ≤ 1) →
  images_to_remove a settings l = filter (selected a settings) l.
Proof.
  induction l as [|x l IH]; intros Honce; [done |].
  rewrite images_to_remove_cons, filter_cons, IH
    by (intros; apply Honce; by right).
  pose proof (Honce x ltac:(left)) as Hx.
  pose proof (selected_times a settings x) as Hsel.
  destruct (decide (selected a settings x)) as [Hs|Hs].
  - assert (times_selected a settings x = 1) as -> by (apply Hsel in Hs; lia). done.
  - assert (times_selected a settings x = 0) as ->
      by (destruct (times_selected a settings x); [done | exfalso; apply Hs, Hsel; lia]).
    done.
Qed.

(** The view the removal loop leaves: the snapshot without the
    selected images. *)
Lemma remove_each_view a settings existing view :
  (remove_each existing (images_to_remove a settings existing)).2 = inr view →
  view = filter (λ x, ¬ selected a settings x) existing.
Proof.
  intros Hview.
  rewrite images_to_remove_once in Hview
    by (intros; by eapply remove_each_once).
  pose proof (remove_each_filter (selected a settings) [] existing) as Heq.
  simpl in Heq. rewrite Heq in Hview by constructor.
  by injection Hview as <-.
Qed.



(** ** Loops that do not raise *)

(** A property of traces that holds of the empty trace and is kept by
    concatenation passes from the steps to the computation. *)
Section closed.
Variable P : list Event → Prop.
Hypothesis P_nil : P [].
Hypothesis P_app : ∀ t1 t2, P t1 → P t2 → P (t1 ++ t2).

Lemma bind_closed {A B} (m : M A) (k : A → M B) :
  P m.1 → (∀ a, P (k a).1) → P (m ≫= k).1.
Proof. destruct m as [tr [e|a]]; simpl; auto. Qed.

Lemma for_each_closed {A S} (body : S → A → M S) l :
  (∀ s x, P (body s x).1) → ∀ s, P (for_each body s l).1.
Proof.
  intros Hbody. induction l as [|x l IH]; intros s; simpl; [done |].
  apply bind_closed; auto.
Qed.
End closed.

(** What a reading of the trace by [omap] gives on a loop whose body
    never raises. *)
Lemma for_each_omap {A S B} (g : Event → option B) (body : S → A → M S)
    (h : A → list B) l :
  (∀ s x, omap g (body s x).1 = h x ∧ ∃ s', (body s x).2 = inr s') →
  ∀ s, omap g (for_each body s l).1 = l ≫= h ∧ ∃ s', (for_each body s l).2 = inr s'.
Proof.
  intros Hbody. induction l as [|x l IH]; intros s; simpl; [eauto |].
  destruct (Hbody s x) as (Hx & s1 & Hs1).
  rewrite (bind_inr _ _ _ Hs1). simpl.
  destruct (IH s1) as (Hl & s2 & Hs2).
  rewrite omap_app, Hx, Hl. eauto.
Qed.

Lemma bind_filter {A} (P : A → Prop) `{∀ x, Decision (P x)} (l : list A) :
  (l ≫= λ x, if decide (P x) then [x] else []) = filter P l.
Proof.
  induction l as [|x l IH]; [done |].
  rewrite bind_cons, filter_cons, IH. by case_decide.
Qed.

Lemma filter_bind {A B} (P : B → Prop) `{∀ x, Decision (P x)} (f : A → list B) (l : list A) :
  filter P (l ≫= f) = l ≫= λ x, filter P (f x).
Proof.
  induction l as [|x l IH]; [done |].
  by rewrite !bind_cons, filter_app, IH.
Qed.

(** ** One image of the upload loop *)

Ltac run_consider :=
  unfold consider, executor_submit, log, emit, mbind, M_bind, mret, M_ret;
  repeat case_bool_decide; simpl.

Lemma consider_returns a w view st image :
  ∃ st', (consider a w view st image).2 = inr st'.
Proof. run_consider; destruct (args.dry_run a); simpl; eauto. Qed.

Lemma consider_submissions a w view st image :
  submissions (consider a w view st image).1 =
  if decide (id image ∉ id <$> view)
  then (if args.dry_run a then [] else [image]) else [].
Proof.
  run_consider; case_decide; try done; destruct (args.dry_run a); done.
Qed.

Lemma consider_logged a w view st image :
  logged (consider a w view st image).1 = upload_report a view image.
Proof.
  unfold upload_report.
  run_consider; case_decide; try done; destruct (args.dry_run a); done.
Qed.

(** ** The upload loop *)

Lemma position_submissions a w settings view st image_id :
  submissions (position a w settings view st image_id).1 =
  (if args.dry_run a then []
   else filter (λ image, id image ∉ id <$> view) (desired_at settings image_id))
  ∧ ∃ st', (position a w settings view st image_id).2 = inr st'.
Proof.
  unfold position, desired_at.
  destruct (settings !! key_id image_id) as [ids|].
  - destruct (for_each_omap
                (λ ev, match ev with Submit _ image => Some image | _ => None end)
                (consider a w view)
                (λ image, if decide (id image ∉ id <$> view)
                          then (if args.dry_run a then [] else [image]) else [])
                (images_of settings image_id ids)) with st as [Hsub Hret].
    { intros s x. split; [apply consider_submissions | apply consider_returns]. }
    split; [| done]. unfold submissions. rewrite Hsub. clear Hsub Hret.
    destruct (args.dry_run a).
    + induction (images_of settings image_id ids) as [|x l IH]; [done |].
      rewrite bind_cons, IH. by case_decide.
    + apply bind_filter.
  - split; [by destruct (args.dry_run a) | by eexists].
Qed.

Lemma position_logged a w settings view st image_id :
  logged (position a w settings view st image_id).1 =
  match settings !! key_id image_id with
  | Some ids => images_of settings image_id ids ≫= upload_report a view
  | None => [(WARNING, not_found_msg image_id)]
  end.
Proof.
  unfold position.
  destruct (settings !! key_id image_id) as [ids|]; [| done].
  apply (for_each_omap
           (λ ev, match ev with Log level message => Some (level, message) | _ => None end)
           (consider a w view)).
  intros s x. split; [apply consider_logged | apply consider_returns].
Qed.

Lemma upload_loop_returns a w settings view :
  ∃ st, (upload_loop a w settings view).2 = inr st.
Proof.
  unfold upload_loop.
  eapply (for_each_omap (λ _, @None unit) (position a w settings view) (λ _, [])).
  intros s x. split; [| apply position_submissions].
  by induction (position a w settings view s x).1.
Qed.

Lemma upload_loop_submissions a w settings view :
  submissions (upload_loop a w settings view).1 =
  if args.dry_run a then [] else to_upload a settings view.
Proof.
  unfold upload_loop, to_upload, desired.
  destruct (for_each_omap
              (λ ev, match ev with Submit _ image => Some image | _ => None end)
              (position a w settings view)
              (λ image_id,
                 if args.dry_run a then []
                 else filter (λ image, id image ∉ id <$> view) (desired_at settings image_id))
              (Py.range (args.start a) (args.finish a + 1)))
    with {| uploading := []; submitted := 0; waited := 0 |} as [Hsub _].
  { intros s x. apply position_submissions. }
  unfold submissions. rewrite Hsub. clear Hsub. destruct (args.dry_run a).
  - induction (Py.range _ _) as [|k ks IH]; [done | by rewrite bind_cons, IH].
  - by rewrite filter_bind.
Qed.

Lemma upload_loop_logged a w settings view :
  logged (upload_loop a w settings view).1 =
  Py.range (args.start a) (args.finish a + 1) ≫= λ image_id,
    match settings !! key_id image_id with
    | Some ids => images_of settings image_id ids ≫= upload_report a view
    | None => [(WARNING, not_found_msg image_id)]
    end.
Proof.
  unfold upload_loop.
  apply (for_each_omap
           (λ ev, match ev with Log level message => Some (level, message) | _ => None end)
           (position a w settings view)).
  intros s x. split; [apply position_logged | apply position_submissions].
Qed.

(** ** [remove] and the removal phase *)

Lemma remove_one_events w settings rank image :
  Forall of_removal (remove_one w settings rank image).1.
Proof.
  unfold remove_one, remove_data, requests_post.
  destruct (remove_form image); [| constructor].
  destruct (post_outcome w rank); repeat constructor.
Qed.

Lemma remove_events w images settings :
  Forall of_removal (remove w images settings).1.
Proof.
  unfold remove. apply bind_Forall; [repeat constructor |]. intros _.
  apply bind_Forall; [| constructor].
  apply for_each_Forall. intros. apply remove_one_events.
Qed.





Lemma removal_phase_events a w settings configurations existing :
  Forall of_removal (removal_phase a w settings configurations existing).1.
Proof.
  unfold removal_phase. destruct (args.remove a); [| constructor].
  apply bind_Forall.
  - destruct (args.dry_run a); [repeat constructor | apply remove_events].
  - intros _. rewrite remove_each_trace. constructor.
Qed.

(** The view the removal phase hands to the upload phase. *)
Lemma removal_phase_view a w settings configurations existing view :
  (removal_phase a w settings configurations existing).2 = inr view →
  view = if args.remove a
         then filter (λ image, ¬ selected a settings image) existing
         else existing.
Proof.
  unfold removal_phase. destruct (args.remove a).
  - intros Hview. apply bind_result_inr in Hview as (_ & _ & Hview).
    by apply remove_each_view.
  - by intros [= <-].
Qed.

Lemma removal_phase_dry_run a w settings configurations existing :
  args.remove a = true → args.dry_run a = true →
  removal_phase a w settings configurations existing =
  ([Log INFO (would_remove_msg (images_to_remove a settings existing))],
   (remove_each existing (images_to_remove a settings existing)).2).
Proof.
  intros Hremove Hdry. unfold removal_phase. rewrite Hremove, Hdry.
  unfold log, emit, mbind, M_bind; simpl. by rewrite remove_each_trace.
Qed.

(** ** [main] as its two phases *)

Lemma of_removal_submissions tr : Forall of_removal tr → submissions tr = [].
Proof.
  induction 1 as [|ev tr Hev _ IH]; [done |].
  destruct ev; try done; simpl in *; by rewrite IH.
Qed.

Lemma elem_of_submissions image tr :
  image ∈ submissions tr ↔ ∃ f, Submit f image ∈ tr.
Proof.
  unfold submissions. rewrite list_elem_of_omap. split.
  - intros (ev & Hev & Himage). destruct ev; try discriminate.
    injection Himage as ->. eauto.
  - intros [f Hf]. exists (Submit f image). done.
Qed.

Lemma elem_of_logged level message tr :
  (level, message) ∈ logged tr ↔ Log level message ∈ tr.
Proof.
  unfold logged. rewrite list_elem_of_omap. split.
  - intros (ev & Hev & Hrecord). destruct ev; try discriminate.
    by injection Hrecord as -> ->.
  - intros Hin. exists (Log level message). done.
Qed.

Lemma upload_phase_off a w settings view :
  args.upload a = false → upload_phase a w settings view = ([], inr tt).
Proof. unfold upload_phase. by intros ->. Qed.

Lemma upload_phase_refused a w settings view :
  args.upload a = true → (args.threads a ≤ 0)%Z →
  upload_phase a w settings view =
  ([], inl (ValueError "max_workers must be greater than 0"%string)).
Proof.
  unfold upload_phase, ThreadPoolExecutor. intros -> Hthreads.
  by rewrite bool_decide_eq_true_2.
Qed.

Lemma upload_phase_on a w settings view :
  args.upload a = true → (0 < args.threads a)%Z →
  ∃ st, (upload_loop a w settings view).2 = inr st ∧
        upload_phase a w settings view =
        ((upload_loop a w settings view).1 ++ [WaitAll (uploading st)], inr tt).
Proof.
  unfold upload_phase, ThreadPoolExecutor. intros -> Hthreads.
  rewrite bool_decide_eq_false_2 by lia.
  destruct (upload_loop_returns a w settings view) as [st Hst].
  exists st. split; [done |].
  unfold mbind at 1, M_bind at 1; simpl.
  by rewrite (bind_inr _ _ _ Hst).
Qed.

Lemma upload_phase_submissions a w settings view :
  submissions (upload_phase a w settings view).1 =
  if args.upload a && bool_decide (0 < args.threads a)%Z && negb (args.dry_run a)
  then to_upload a settings view else [].
Proof.
  destruct (args.upload a) eqn:Hupload; [| by rewrite upload_phase_off].
  case_bool_decide as Hthreads; [| by rewrite upload_phase_refused by (done || lia)].
  destruct (upload_phase_on a w settings view) as (st & _ & ->); [done.. |].
  simpl. unfold submissions. rewrite omap_app. simpl. rewrite app_nil_r.
  fold (submissions (upload_loop a w settings view).1).
  rewrite upload_loop_submissions. by destruct (args.dry_run a).
Qed.

Lemma main_submissions a w settings configurations existing :
  submissions (main a w settings configurations existing).1 =
  match (removal_phase a w settings configurations existing).2 with
  | inr view =>
      if args.upload a && bool_decide (0 < args.threads a)%Z && negb (args.dry_run a)
      then to_upload a settings view else []
  | inl _ => []
  end.
Proof.
  unfold main.
  pose proof (removal_phase_events a w settings configurations existing) as Hev.
  apply of_removal_submissions in Hev.
  destruct (removal_phase a w settings configurations existing).2 as [e|view] eqn:Hres.
  - by rewrite (bind_inl _ _ _ Hres).
  - rewrite (bind_inr _ _ _ Hres). simpl. unfold submissions in *.
    rewrite omap_app, Hev. apply upload_phase_submissions.
Qed.

(** ** [dict] and the images of a position *)

Section dict.
Context {K V : Type} `{EqDecision K}.
Implicit Types (d pairs : list (K * V)).

Lemma dict_set_elem kv k v d :
  kv ∈ Py.dict_set k v d → kv = (k, v) ∨ kv ∈ d.
Proof.
  induction d as [|[k' v'] d IH]; simpl.
  - intros Hin. apply list_elem_of_singleton in Hin. by left.
  - case_decide; rewrite !elem_of_cons; [tauto |].
    intros [-> | Hin]; [tauto |]. destruct (IH Hin); tauto.
Qed.

Lemma dict_set_fresh k v d :
  k ∉ d.*1 → Py.dict_set k v d = d ++ [(k, v)].
Proof.
  induction d as [|[k' v'] d IH]; simpl; [done |].
  intros Hk. apply not_elem_of_cons in Hk as [Hne Hk].
  rewrite decide_False by done. by rewrite IH.
Qed.

Lemma dict_set_length k v d : length (Py.dict_set k v d) ≤ S (length d).
Proof.
  induction d as [|[k' v'] d IH]; simpl; [lia |].
  case_decide; simpl; lia.
Qed.

Lemma dict_from_elem kv d pairs :
  kv ∈ foldl (λ d kv, Py.dict_set kv.1 kv.2 d) d pairs → kv ∈ d ∨ kv ∈ pairs.
Proof.
  revert d. induction pairs as [|[k v] pairs IH]; intros d; simpl; [tauto |].
  intros Hin. destruct (IH _ Hin) as [Hd | Hp].
  - destruct (dict_set_elem _ _ _ _ Hd) as [-> | ?]; [right; left | tauto].
  - right. by right.
Qed.

(** Every item of the [dict] is one of the pairs it was built from. *)
Lemma dict_elem kv pairs : kv ∈ Py.dict pairs → kv ∈ pairs.
Proof.
  intros Hin. destruct (dict_from_elem _ _ _ Hin) as [Hnil | ?]; [| done].
  by apply elem_of_nil in Hnil.
Qed.

Lemma dict_from_fresh d pairs :
  NoDup ((d ++ pairs).*1) →
  foldl (λ d kv, Py.dict_set kv.1 kv.2 d) d pairs = d ++ pairs.
Proof.
  revert d. induction pairs as [|[k v] pairs IH]; intros d Hnd; simpl.
  - by rewrite app_nil_r.
  - rewrite dict_set_fresh.
    + rewrite IH; rewrite <- app_assoc; done.
    + rewrite fmap_app in Hnd. apply NoDup_app in Hnd as (_ & Hfresh & _).
      intros Hk. apply (Hfresh k Hk). simpl. left.
Qed.

(** Pairs with distinct keys pass through the [dict] unchanged. *)
Lemma dict_NoDup pairs : NoDup (pairs.*1) → Py.dict pairs = pairs.
Proof. intros Hnd. unfold Py.dict. by rewrite dict_from_fresh. Qed.

Lemma dict_from_length d pairs :
  length (foldl (λ d kv, Py.dict_set kv.1 kv.2 d) d pairs) ≤ length d + length pairs.
Proof.
  revert d. induction pairs as [|[k v] pairs IH]; intros d; simpl; [lia |].
  pose proof (IH (Py.dict_set k v d)). pose proof (dict_set_length k v d). lia.
Qed.

Lemma dict_length pairs : length (Py.dict pairs) ≤ length pairs.
Proof. apply (dict_from_length []). Qed.
End dict.

Section dict_get.
Context {K V : Type} `{EqDecision K}.
Implicit Types (d pairs : list (K * V)).

Lemma dict_get_set k k' v d :
  dict_get k (Py.dict_set k' v d) = if decide (k = k') then Some v else dict_get k d.
Proof.
  induction d as [|[k0 v0] d IH]; simpl.
  - by case_decide.
  - destruct (decide (k' = k0)) as [-> | Hne]; simpl.
    + by case_decide.
    + rewrite IH. destruct (decide (k = k0)) as [-> | ?]; [| done].
      by rewrite decide_False by done.
Qed.

Lemma dict_get_app k d1 d2 :
  dict_get k (d1 ++ d2)
  = match dict_get k d1 with Some v => Some v | None => dict_get k d2 end.
Proof.
  induction d1 as [|[k0 v0] d1 IH]; simpl; [done |]. by case_decide.
Qed.

Lemma dict_get_from k d pairs :
  dict_get k (foldl (λ d kv, Py.dict_set kv.1 kv.2 d) d pairs)
  = match dict_get k (reverse pairs) with
    | Some v => Some v
    | None => dict_get k d
    end.
Proof.
  revert d. induction pairs as [|[k0 v0] pairs IH]; intros d; simpl; [done |].
  rewrite IH, reverse_cons, dict_get_app, dict_get_set. simpl.
  destruct (dict_get k (reverse pairs)); [done |]. by case_decide.
Qed.

(** In [dict(pairs)] a key has the value of its last pair. *)
Lemma dict_get_dict k pairs :
  dict_get k (Py.dict pairs) = dict_get k (reverse pairs).
Proof.
  unfold Py.dict. rewrite dict_get_from. by destruct (dict_get k (reverse pairs)).
Qed.
End dict_get.

Section dict_keys.
Context {K V : Type} `{EqDecision K}.
Implicit Types (d pairs : list (K * V)).

Lemma dict_set_keys k v d :
  (Py.dict_set k v d).*1 = if decide (k ∈ d.*1) then d.*1 else d.*1 ++ [k].
Proof.
  induction d as [|[k' v'] d IH].
  - by rewrite decide_False by apply not_elem_of_nil.
  - cbn [Py.dict_set]. rewrite !fmap_cons. cbn [fst].
    destruct (decide (k = k')) as [-> | Hne].
    + by rewrite decide_True by left.
    + rewrite fmap_cons, IH. cbn [fst].
      destruct (decide (k ∈ d.*1)) as [Hin | Hout].
      * by rewrite decide_True by (by right).
      * rewrite decide_False; [done |]. by apply not_elem_of_cons.
Qed.

Lemma dict_from_keys d pairs :
  (foldl (λ d kv, Py.dict_set kv.1 kv.2 d) d pairs).*1
  = foldl (λ seen x, if decide (x ∈ seen) then seen else seen ++ [x]) d.*1 pairs.*1.
Proof.
  revert d. induction pairs as [|[k v] pairs IH]; intros d; simpl; [done |].
  by rewrite IH, dict_set_keys.
Qed.

(** The keys of [dict(pairs)] are the distinct keys of the pairs, each
    where it first stands. *)
Lemma dict_keys pairs : (Py.dict pairs).*1 = first_occurrences pairs.*1.
Proof. apply (dict_from_keys []). Qed.

Lemma dict_get_elem k v d : NoDup d.*1 → (k, v) ∈ d → dict_get k d = Some v.
Proof.
  induction d as [|[k' v'] d IH]; simpl; intros Hnd Hin.
  - by apply elem_of_nil in Hin.
  - apply NoDup_cons in Hnd as [Hfresh Hnd].
    apply elem_of_cons in Hin as [[= <- <-] | Hin]; [by rewrite decide_True |].
    case_decide as Heq; [| by apply IH]. subst k'. destruct Hfresh.
    apply list_elem_of_fmap. by exists (k, v).
Qed.

(** The first pair of the reversed list that has a key is the last
    pair of the list that has it. *)
Lemma dict_get_last k v pairs :
  dict_get k (reverse pairs) = Some v →
  ∃ i, pairs !! i = Some (k, v) ∧ ∀ j v', i < j → pairs !! j ≠ Some (k, v').
Proof.
  induction pairs as [|[k0 v0] pairs IH] using rev_ind; [done |].
  rewrite reverse_snoc. simpl. case_decide as Heq.
  - intros [= <-]. subst k0. exists (length pairs). split.
    + by rewrite lookup_app_r, Nat.sub_diag by lia.
    + intros j v' Hj Hlook. apply lookup_lt_Some in Hlook.
      rewrite length_app in Hlook. simpl in Hlook. lia.
  - intros Hget. destruct (IH Hget) as (i & Hi & Hlast). exists i. split.
    + by apply lookup_app_l_Some.
    + intros j v' Hj Hlook. apply lookup_snoc_Some in Hlook as [[_ Hlook] | [_ [= -> _]]].
      * by apply (Hlast j v').
      * done.
Qed.
End dict_keys.

Lemma first_occurrences_from_NoDup {A} `{EqDecision A} (seen l : list A) :
  NoDup seen →
  NoDup (foldl (λ seen x, if decide (x ∈ seen) then seen else seen ++ [x]) seen l).
Proof.
  revert seen. induction l as [|x l IH]; intros seen Hnd; simpl; [done |].
  apply IH. case_decide as Hin; [done |].
  apply NoDup_app. split; [done |]. split; [| apply NoDup_singleton].
  intros y Hy Hin'. apply list_elem_of_singleton in Hin' as ->. done.
Qed.

Lemma first_occurrences_NoDup {A} `{EqDecision A} (l : list A) :
  NoDup (first_occurrences l).
Proof. apply first_occurrences_from_NoDup. constructor. Qed.

Lemma fst_zip_take {A B} (l : list A) (k : list B) :
  (zip l k).*1 = take (length k) l.
Proof.
  revert k. induction l as [|x l IH]; intros [|y k]; simpl; [done.. |].
  by rewrite IH.
Qed.


Lemma images_of_pair settings image_id ids image :
  image ∈ images_of settings image_id ids →
  ∃ file, image = {| id := id image; filename := Some file; remove_form := None |} ∧
          (id image, file) ∈ zip (Py.split "|" ids)
             (Py.split "|" (Py.or_empty (settings !! key_filename image_id))).
Proof.
  unfold images_of. rewrite list_elem_of_fmap.
  intros ([identifier file] & -> & Hin). exists file. split; [done |].
  by apply dict_elem.
Qed.

Lemma images_of_id settings image_id ids image :
  image ∈ images_of settings image_id ids → id image ∈ Py.split "|" ids.
Proof.
  intros Hin. apply images_of_pair in Hin as (file & _ & Hzip).
  by apply elem_of_zip_l in Hzip.
Qed.

Lemma elem_of_desired a settings image :
  image ∈ desired a settings ↔
  ∃ image_id ids, (args.start a ≤ image_id ≤ args.finish a)%Z ∧
                  settings !! key_id image_id = Some ids ∧
                  image ∈ images_of settings image_id ids.
Proof.
  unfold desired, desired_at. rewrite list_elem_of_bind. split.
  - intros (k & Hin & Hk). apply elem_of_range in Hk.
    destruct (settings !! key_id k) as [ids|] eqn:Hids;
      [| by apply elem_of_nil in Hin].
    exists k, ids. repeat split; (lia || done).
  - intros (k & ids & Hk & Hids & Hin). exists k. rewrite Hids.
    split; [done | apply elem_of_range; lia].
Qed.

(** Whatever the range expands to is configured for removal too: the
    two phases read the same key. *)
Lemma desired_selected a settings image x :
  image ∈ desired a settings → id x = id image → selected a settings x.
Proof.
  rewrite elem_of_desired. intros (k & ids & Hk & Hids & Hin) Hid.
  unfold selected. apply Exists_exists. exists k. split.
  - apply elem_of_range. lia.
  - unfold configured_at. rewrite Hids, Hid.
    apply bool_decide_pack. by eapply images_of_id.
Qed.

(** ** A removal phase that meets an image twice *)



(** ** The set [uploading] along the trace *)

Lemma in_flight_from_app fs t1 t2 :
  in_flight_from fs (t1 ++ t2) = in_flight_from (in_flight_from fs t1) t2.
Proof. apply foldl_app. Qed.

Lemma bounded_nil T fs : length fs ≤ T → bounded T fs [].
Proof. intros Hfs n. by rewrite take_nil. Qed.

Lemma bounded_cons T fs ev tr :
  length fs ≤ T → bounded T (in_flight_step fs ev) tr → bounded T fs (ev :: tr).
Proof. intros Hfs Htr [|n]; [done | apply Htr]. Qed.

Lemma bounded_final T fs tr :
  bounded T fs tr → length (in_flight_from fs tr) ≤ T.
Proof. intros Htr. specialize (Htr (length tr)). by rewrite take_ge in Htr. Qed.

Lemma bounded_app T fs t1 t2 :
  bounded T fs t1 → bounded T (in_flight_from fs t1) t2 → bounded T fs (t1 ++ t2).
Proof.
  intros H1 H2 n. rewrite take_app, in_flight_from_app.
  destruct (decide (n ≤ length t1)) as [Hn|Hn].
  - replace (n - length t1) with 0 by lia. rewrite take_0. apply H1.
  - rewrite take_ge by lia. apply H2.
Qed.

Lemma of_removal_in_flight tr fs :
  Forall of_removal tr → in_flight_from fs tr = fs.
Proof.
  intros Htr. revert fs. induction Htr as [|ev tr Hev _ IH]; intros fs; [done |].
  destruct ev; try done; apply IH.
Qed.

Lemma of_removal_bounded T tr fs :
  Forall of_removal tr → length fs ≤ T → bounded T fs tr.
Proof.
  intros Htr Hfs n. by rewrite of_removal_in_flight by (by apply Forall_take).
Qed.

Lemma for_each_tracked {A} T (body : Loop → A → M Loop) l :
  (∀ s x, length (uploading s) ≤ T → tracked T s (body s x)) →
  ∀ s, length (uploading s) ≤ T → tracked T s (for_each body s l).
Proof.
  intros Hbody. induction l as [|x l IH]; intros s Hs.
  - exists s. repeat split; [by apply bounded_nil].
  - destruct (Hbody s x Hs) as (s1 & Hres1 & Hfs1 & Hb1).
    assert (length (uploading s1) ≤ T) as Hs1
      by (rewrite <- Hfs1; by apply bounded_final).
    destruct (IH s1 Hs1) as (s2 & Hres2 & Hfs2 & Hb2).
    exists s2. rewrite for_each_cons, (bind_inr _ _ _ Hres1). simpl.
    rewrite in_flight_from_app, Hfs1.
    repeat split; [done.. |]. apply bounded_app; by rewrite ?Hfs1.
Qed.

(** A first-completed wait on a set that is not empty returns fewer
    futures than it was given. *)
Lemma wait_first_completed_length c fs :
  fs ≠ [] → length (wait_first_completed c fs) < length fs.
Proof.
  destruct fs as [|f0 fs]; [done |]. intros _. unfold wait_first_completed.
  set (winner := nth _ _ _).
  apply (length_filter_lt _ _ winner); [| tauto].
  apply nth_elem_of. apply Nat.mod_upper_bound. done.
Qed.

Lemma consider_tracked a w view s image :
  (0 < args.threads a)%Z →
  length (uploading s) ≤ Z.to_nat (args.threads a) →
  tracked (Z.to_nat (args.threads a)) s (consider a w view s image).
Proof.
  intros Hthreads Hs. unfold tracked.
  assert (∀ c, Z.to_nat (args.threads a) ≤ length (uploading s) →
               S (length (wait_first_completed c (uploading s)))
               ≤ Z.to_nat (args.threads a)) as Hwait.
  { intros c Hfull.
    pose proof (wait_first_completed_length c (uploading s)) as Hlt.
    destruct (uploading s); [simpl in Hfull; lia |].
    specialize (Hlt ltac:(done)). lia. }
  run_consider.
  - eexists. repeat split. by apply bounded_nil.
  - destruct (args.dry_run a); simpl; eexists; (split; [reflexivity |]);
      (split; [reflexivity |]); specialize (Hwait (completion w (waited s)) ltac:(lia));
      repeat (apply bounded_cons; simpl; [rewrite ?length_app; simpl; lia |]);
      apply bounded_nil; rewrite ?length_app; simpl; lia.
  - destruct (args.dry_run a); simpl; eexists; (split; [reflexivity |]);
      (split; [reflexivity |]);
      repeat (apply bounded_cons; simpl; [rewrite ?length_app; simpl; lia |]);
      apply bounded_nil; rewrite ?length_app; simpl; lia.
Qed.

Lemma position_tracked a w settings view s image_id :
  (0 < args.threads a)%Z →
  length (uploading s) ≤ Z.to_nat (args.threads a) →
  tracked (Z.to_nat (args.threads a)) s (position a w settings view s image_id).
Proof.
  intros Hthreads Hs. unfold position.
  destruct (settings !! key_id image_id) as [ids|].
  - apply for_each_tracked; [| done]. intros. by apply consider_tracked.
  - exists s. repeat split. apply bounded_cons; [done |]. by apply bounded_nil.
Qed.

Lemma upload_loop_tracked a w settings view :
  (0 < args.threads a)%Z →
  tracked (Z.to_nat (args.threads a))
    {| uploading := []; submitted := 0; waited := 0 |}
    (upload_loop a w settings view).
Proof.
  intros Hthreads. unfold upload_loop.
  apply for_each_tracked; [| simpl; lia]. intros. by apply position_tracked.
Qed.

(** The variable read off the trace is the variable of the loop. *)
Lemma upload_loop_in_flight a w settings view :
  (0 < args.threads a)%Z →
  ∃ st, (upload_loop a w settings view).2 = inr st ∧
        in_flight (upload_loop a w settings view).1 = uploading st.
Proof.
  intros Hthreads.
  destruct (upload_loop_tracked a w settings view Hthreads) as (st & Hst & Hfs & _).
  by exists st.
Qed.

Lemma upload_phase_bounded a w settings view :
  bounded (Z.to_nat (args.threads a)) [] (upload_phase a w settings view).1.
Proof.
  destruct (args.upload a) eqn:Hupload;
    [| rewrite upload_phase_off by done; apply bounded_nil; simpl; lia].
  destruct (decide (0 < args.threads a)%Z) as [Hthreads|Hthreads];
    [| rewrite upload_phase_refused by (done || lia); apply bounded_nil; simpl; lia].
  destruct (upload_phase_on a w settings view) as (st & Hst & ->); [done.. |].
  destruct (upload_loop_tracked a w settings view Hthreads) as (st' & Hst' & Hfs & Hb).
  simpl in *. apply bounded_app; [done |].
  apply bounded_cons; [by apply bounded_final |].
  apply bounded_nil. simpl. by apply bounded_final.
Qed.

(** ** What the world cannot change *)

Lemma for_each_ext {A S} (I : S → Prop) (body1 body2 : S → A → M S) l :
  (∀ s x, I s → body1 s x = body2 s x ∧ ∀ s', (body1 s x).2 = inr s' → I s') →
  ∀ s, I s → for_each body1 s l = for_each body2 s l.
Proof.
  intros Hbody. induction l as [|x l IH]; intros s Hs; [done |].
  rewrite !for_each_cons. destruct (Hbody s x Hs) as [Heq Hinv].
  rewrite <- Heq. destruct (body1 s x) as [tr [e|s1]]; [done |].
  unfold mbind, M_bind; simpl. by rewrite IH by (by apply Hinv).
Qed.

Lemma for_each_inv {A S} (I : S → Prop) (body : S → A → M S) l :
  (∀ s x s', I s → (body s x).2 = inr s' → I s') →
  ∀ s s', I s → (for_each body s l).2 = inr s' → I s'.
Proof.
  intros Hbody. induction l as [|x l IH]; intros s s' Hs.
  - by intros [= <-].
  - rewrite for_each_cons. intros Hres.
    apply bind_result_inr in Hres as (s1 & Hs1 & Hres). eauto.
Qed.

(** In a dry run the set [uploading] stays empty. *)
Lemma consider_dry_run_empty a w view s image s' :
  args.dry_run a = true → uploading s = [] →
  (consider a w view s image).2 = inr s' → uploading s' = [].
Proof.
  intros Hdry Hs. unfold consider. rewrite Hdry, Hs.
  unfold log, emit, mbind, M_bind, mret, M_ret; repeat case_bool_decide; simpl;
    by intros [= <-].
Qed.

Lemma consider_dry_run a w1 w2 view s image :
  args.dry_run a = true → uploading s = [] →
  consider a w1 view s image = consider a w2 view s image.
Proof. intros Hdry Hs. unfold consider. by rewrite Hdry, Hs. Qed.

Lemma position_dry_run a w1 w2 settings view s image_id :
  args.dry_run a = true → uploading s = [] →
  position a w1 settings view s image_id = position a w2 settings view s image_id ∧
  ∀ s', (position a w1 settings view s image_id).2 = inr s' → uploading s' = [].
Proof.
  intros Hdry Hs. unfold position.
  destruct (settings !! key_id image_id) as [ids|].
  - split.
    + apply (for_each_ext (λ s, uploading s = [])); [| done].
      intros s0 x Hs0. split; [by apply consider_dry_run |].
      intros s'. by apply consider_dry_run_empty.
    + intros s'. apply (for_each_inv (λ s, uploading s = [])); [| done].
      intros s0 x s1 Hs0. by apply consider_dry_run_empty.
  - split; [done |]. by intros s' [= <-].
Qed.

Lemma upload_phase_dry_run a w1 w2 settings view :
  args.dry_run a = true →
  upload_phase a w1 settings view = upload_phase a w2 settings view.
Proof.
  intros Hdry. unfold upload_phase, upload_loop.
  rewrite (for_each_ext (λ s, uploading s = [])
             (position a w1 settings view) (position a w2 settings view)); [done | | done].
  intros s x Hs. by apply position_dry_run.
Qed.

Lemma removal_phase_dry_run_world a w1 w2 settings configurations existing :
  args.dry_run a = true →
  removal_phase a w1 settings configurations existing =
  removal_phase a w2 settings configurations existing.
Proof. intros Hdry. unfold removal_phase. by rewrite Hdry. Qed.

(** The outcomes of the reliable executions reach the workers only. *)
Lemma bind_similar {A B} (m1 m2 : M A) (k1 k2 : A → M B) :
  similar m1 m2 → (∀ a, similar (k1 a) (k2 a)) → similar (m1 ≫= k1) (m2 ≫= k2).
Proof.
  unfold similar. destruct m1 as [t1 [e1|a1]], m2 as [t2 [e2|a2]];
    intros [Hres Htr] Hk; try discriminate; unfold mbind, M_bind; simpl in *.
  - injection Hres as ->. by split.
  - injection Hres as ->. destruct (Hk a2) as [Hres Htr'].
    unfold without_tasks in *. by rewrite !omap_app, Htr, Htr'.
Qed.

Lemma for_each_similar {A S} (body1 body2 : S → A → M S) l :
  (∀ s x, similar (body1 s x) (body2 s x)) →
  ∀ s, similar (for_each body1 s l) (for_each body2 s l).
Proof.
  intros Hbody. induction l as [|x l IH]; intros s; [done |].
  rewrite !for_each_cons. by apply bind_similar.
Qed.

Lemma similar_refl {A} (m : M A) : similar m m.
Proof. done. Qed.

Lemma consider_similar a w outcomes view s image :
  similar (consider a (with_exec_outcome w outcomes) view s image)
          (consider a w view s image).
Proof.
  unfold similar. run_consider; destruct (args.dry_run a); done.
Qed.

Lemma upload_phase_similar a w outcomes settings view :
  similar (upload_phase a (with_exec_outcome w outcomes) settings view)
          (upload_phase a w settings view).
Proof.
  unfold upload_phase. destruct (args.upload a); [| done].
  apply bind_similar; [done |]. intros _.
  apply bind_similar; [| done].
  unfold upload_loop. apply for_each_similar. intros s k. unfold position.
  destruct (settings !! key_id k); [| done].
  apply for_each_similar. intros. apply consider_similar.
Qed.

Lemma main_similar a w outcomes settings configurations existing :
  similar (main a (with_exec_outcome w outcomes) settings configurations existing)
          (main a w settings configurations existing).
Proof.
  unfold main. apply bind_similar; [done |].
  intros view. apply upload_phase_similar.
Qed.

(** Every submitted call is run. *)
Lemma all_run_nil w : all_run w [].
Proof. intros f image Hin. by apply elem_of_nil in Hin. Qed.

Lemma all_run_app w t1 t2 : all_run w t1 → all_run w t2 → all_run w (t1 ++ t2).
Proof.
  intros H1 H2 f image Hin. apply elem_of_app.
  apply elem_of_app in Hin as [Hin | Hin]; [left; by apply H1 | right; by apply H2].
Qed.

Lemma of_removal_all_run w tr : Forall of_removal tr → all_run w tr.
Proof.
  intros Htr f image Hin. rewrite Forall_forall in Htr.
  by destruct (Htr _ Hin).
Qed.

Lemma consider_all_run a w view s image : all_run w (consider a w view s image).1.
Proof.
  run_consider; try apply all_run_nil; destruct (args.dry_run a); simpl;
    intros f image' Hin; repeat (apply elem_of_cons in Hin as [Hin | Hin]);
    try discriminate; try (by apply elem_of_nil in Hin);
    injection Hin as -> ->; set_solver.
Qed.

Lemma upload_phase_all_run a w settings view :
  all_run w (upload_phase a w settings view).1.
Proof.
  unfold upload_phase. destruct (args.upload a); [| apply all_run_nil].
  apply (bind_closed (all_run w)); [apply all_run_app | |].
  { unfold ThreadPoolExecutor. case_bool_decide; apply all_run_nil. }
  intros _.
  apply (bind_closed (all_run w)); [apply all_run_app | |].
  - unfold upload_loop.
    apply (for_each_closed (all_run w)); [apply all_run_nil | apply all_run_app |].
    intros s k. unfold position. destruct (settings !! key_id k).
    + apply (for_each_closed (all_run w)); [apply all_run_nil | apply all_run_app |].
      intros. apply consider_all_run.
    + intros f image Hin. apply list_elem_of_singleton in Hin. discriminate.
  - intros st f image Hin. apply list_elem_of_singleton in Hin. discriminate.
Qed.

Lemma main_all_run a w settings configurations existing :
  all_run w (main a w settings configurations existing).1.
Proof.
  unfold main.
  apply (bind_closed (all_run w)); [apply all_run_app | |].
  - apply of_removal_all_run, removal_phase_events.
  - intros view. apply upload_phase_all_run.
Qed.

(** ** Reading an option *)

Lemma lower_app s t : Py.lower (s +:+ t) = Py.lower s +:+ Py.lower t.
Proof. induction s as [|c s IH]; simpl; [done | by rewrite IH]. Qed.

Lemma pretty_N_char_lower x : Py.lower_char (pretty_N_char x) = pretty_N_char x.
Proof. unfold pretty_N_char. by repeat case_match. Qed.

Lemma pretty_N_go_lower x s :
  Py.lower s = s → Py.lower (pretty_N_go x s) = pretty_N_go x s.
Proof.
  revert s. induction (N.lt_wf_0 x) as [x _ IH]; intros s Hs.
  assert (x = 0 ∨ 0 < x)%N as [-> | Hpos] by lia; [by rewrite pretty_N_go_0 |].
  rewrite pretty_N_go_step by done. apply IH; [by apply N.div_lt |].
  simpl. by rewrite pretty_N_char_lower, Hs.
Qed.

Lemma pretty_Z_lower (k : Z) : Py.lower (pretty k) = pretty k.
Proof.
  assert (∀ p : positive, Py.lower (pretty p) = pretty p) as Hpos.
  { intros p. unfold pretty, pretty_positive, pretty, pretty_N.
    case_decide; [done |]. by apply pretty_N_go_lower. }
  destruct k as [|p|p]; [done | apply Hpos |].
  unfold pretty, pretty_Z. rewrite lower_app. by rewrite Hpos.
Qed.

(** The keys of the range are in lower case already: [optionxform]
    leaves them as they are. *)
Lemma optionxform_key_id k : ConfigParser.optionxform (key_id k) = key_id k.
Proof.
  unfold ConfigParser.optionxform, key_id. by rewrite lower_app, pretty_Z_lower.
Qed.

Lemma optionxform_key_filename k :
  ConfigParser.optionxform (key_filename k) = key_filename k.
Proof.
  unfold ConfigParser.optionxform, key_filename. by rewrite lower_app, pretty_Z_lower.
Qed.

(** A value without a percent sign reads as it is stored. *)
Lemma scan_plain deeper map value :
  ConfigParser.has_percent value = false →
  ConfigParser.scan deeper map ConfigParser.Plain value = inr value.
Proof.
  induction value as [|c value IH]; simpl; [done |].
  intros Hplain. apply orb_false_elim in Hplain as [-> Hrest]. by rewrite IH.
Qed.

Lemma before_get_plain map value :
  ConfigParser.has_percent value = false → ConfigParser.before_get map value = inr value.
Proof. apply scan_plain. Qed.

(** Examples of interpolation: a doubled percent sign reads as one, a
    reference as the value of the option it names, and a percent sign
    before anything else raises. *)
Example before_get_examples :
  ConfigParser.before_get ∅ "a%%b" = inr "a%b"%string
  ∧ ConfigParser.before_get scene.referring "%(Prefix)s_a" = inr "party_a"%string
  ∧ ConfigParser.before_get ∅ "50%" = inl ConfigParser.lone_percent
  ∧ ConfigParser.before_get ∅ "d=a%2Fb" = inl ConfigParser.lone_percent
  ∧ ConfigParser.before_get ∅ "%(missing)s"
    = inl (ConfigParser.InterpolationMissingOptionError "missing")
  ∧ ConfigParser.before_get {[ "loop"%string := "%(loop)s"%string ]} "%(loop)s"
    = inl ConfigParser.InterpolationDepthError.
Proof. vm_compute. done. Qed.

Lemma as_read_lookup settings key :
  as_read settings !! key
  = match settings !! key with
    | Some value =>
        match ConfigParser.before_get settings value with
        | inl _ => None
        | inr v => Some v
        end
    | None => None
    end.
Proof. unfold as_read. rewrite lookup_omap. by destruct (settings !! key). Qed.

(** The reads of a key that [optionxform] leaves as it is, whose
    stored value interpolates, are the lookups of [as_read]. *)
Section reads.
Variables (settings : gmap string string) (key : string).
Hypothesis lower_case : ConfigParser.optionxform key = key.
Hypothesis well : reads_well settings key.

Lemma has_option_as_read :
  ConfigParser.has_option settings key = bool_decide (is_Some (as_read settings !! key)).
Proof.
  unfold ConfigParser.has_option. rewrite lower_case, as_read_lookup.
  destruct (settings !! key) as [value|] eqn:Hvalue.
  - destruct (well value Hvalue) as [v ->].
    by rewrite !bool_decide_eq_true_2 by (by eexists).
  - done.
Qed.

Lemma get_as_read : ConfigParser.get settings key = inr (as_read settings !! key).
Proof.
  unfold ConfigParser.get. rewrite lower_case, as_read_lookup.
  destruct (settings !! key) as [value|] eqn:Hvalue; [| done].
  by destruct (well value Hvalue) as [v ->].
Qed.

Lemma getitem_as_read v :
  as_read settings !! key = Some v → ConfigParser.getitem settings key = inr v.
Proof.
  unfold ConfigParser.getitem. rewrite lower_case, as_read_lookup.
  destruct (settings !! key) as [value|]; [| done].
  destruct (ConfigParser.before_get settings value); [done |]. by intros [= ->].
Qed.
End reads.


Lemma has_option_true settings name :
  ConfigParser.has_option settings name = true
  ↔ ∃ value, settings !! ConfigParser.optionxform name = Some value.
Proof. unfold ConfigParser.has_option. by rewrite bool_decide_eq_true. Qed.

(** ** The two phases over the profile as stored *)

Lemma reading_inr {A B} (x : A) (k : A → M B) : (stored.reading (inr x) ≫= k) = k x.
Proof. apply bind_mret_l. Qed.

Lemma reading_inl {A B} (e : Exn) (k : A → M B) :
  (stored.reading (inl e) ≫= k) = ([], inl e).
Proof. done. Qed.


Lemma quiet_app (t1 t2 : list Event) : t1 = [] → t2 = [] → t1 ++ t2 = [].
Proof. by intros -> ->. Qed.

(** The reads leave no event. *)
Lemma stored_configured_at_quiet settings identifier image_id :
  (stored.configured_at settings identifier image_id).1 = [].
Proof.
  unfold stored.configured_at.
  destruct (ConfigParser.has_option settings (key_id image_id)); [| done].
  by destruct (ConfigParser.getitem settings (key_id image_id)).
Qed.

Lemma stored_images_to_remove_quiet a settings existing :
  (stored.images_to_remove a settings existing).1 = [].
Proof.
  unfold stored.images_to_remove.
  apply (for_each_closed (λ tr, tr = [])); [done | apply quiet_app |].
  intros found image.
  apply (for_each_closed (λ tr, tr = [])); [done | apply quiet_app |].
  intros found' image_id.
  apply (bind_closed (λ tr, tr = [])); [apply quiet_app | | done].
  apply stored_configured_at_quiet.
Qed.

Lemma stored_images_of_quiet settings image_id :
  (stored.images_of settings image_id).1 = [].
Proof.
  unfold stored.images_of.
  destruct (ConfigParser.getitem settings (key_id image_id)) as [e|ids]; [done |].
  rewrite reading_inr.
  by destruct (ConfigParser.get settings (key_filename image_id)).
Qed.

(** * The claims *)

(** C1: no image handed to the executor has an id of the snapshot,
    unless an image with that id was selected for removal in the same
    run; and when removal and upload are both enabled and the run comes
    through, every image the range expands to is handed to the
    executor, the ones whose id the snapshot held included: their
    removal freed the id. *)
Theorem dispatch_avoids_untouched_ids a w settings configurations existing :
  (∀ f image,
     Submit f image ∈ (main a w settings configurations existing).1 →
     id image ∈ id <$> existing →
     args.remove a = true ∧
     id image ∈ id <$> images_to_remove a settings existing)
  ∧ (args.remove a = true → args.upload a = true → args.dry_run a = false →
     (main a w settings configurations existing).2 = inr tt →
     ∀ image, image ∈ desired a settings →
       ∃ f, Submit f image ∈ (main a w settings configurations existing).1).
Proof.
  split.
  - intros f image Hin Hid.
    assert (image ∈ submissions (main a w settings configurations existing).1) as Hsub
      by (apply elem_of_submissions; eauto).
    rewrite main_submissions in Hsub.
    destruct (removal_phase a w settings configurations existing).2
      as [e|view] eqn:Hres; [by apply elem_of_nil in Hsub |].
    destruct (_ && _); [| by apply elem_of_nil in Hsub].
    apply list_elem_of_filter in Hsub as [Hfresh _].
    apply removal_phase_view in Hres.
    destruct (args.remove a); [| by subst].
    split; [done |].
    apply list_elem_of_fmap in Hid as (x & Hidx & Hx).
    apply list_elem_of_fmap. exists x. split; [done |].
    apply elem_of_images_to_remove. split; [done |].
    destruct (decide (selected a settings x)) as [|Hfree]; [done |].
    exfalso. apply Hfresh. rewrite Hidx. apply list_elem_of_fmap.
    exists x. split; [done |]. subst view. by apply list_elem_of_filter.
  - intros Hremove Hupload Hdry Hok image Hdesired.
    unfold main in Hok. apply bind_result_inr in Hok as (view & Hres & Hup).
    assert (0 < args.threads a)%Z as Hthreads.
    { destruct (decide (0 < args.threads a)%Z) as [|Hno]; [done |].
      rewrite upload_phase_refused in Hup by (done || lia). discriminate. }
    apply elem_of_submissions.
    rewrite main_submissions, Hres, Hupload, Hdry, bool_decide_eq_true_2 by done.
    simpl. apply list_elem_of_filter. split; [| done].
    intros Hin. apply list_elem_of_fmap in Hin as (y & Hidy & Hy).
    apply removal_phase_view in Hres. rewrite Hremove in Hres. subst view.
    apply list_elem_of_filter in Hy as [Hfree _].
    apply Hfree. by eapply desired_selected.
Qed.

Lemma dispatch_avoids_untouched_ids_witness :
  (true = true ∧
   "a"%string ∈ id <$> images_to_remove (sample.flags 2 2 true true false 4)
                         sample.short_files
                         [sample.existing "a" 0; sample.existing "c" 1])
  ∧ ∃ f, Submit f (sample.wanted "a" "x")
           ∈ (main (sample.flags 2 2 true true false 4) sample.calm
                sample.short_files sample.configurations
                [sample.existing "a" 0; sample.existing "c" 1]).1.
Proof.
  destruct (dispatch_avoids_untouched_ids
              (sample.flags 2 2 true true false 4) sample.calm
              sample.short_files sample.configurations
              [sample.existing "a" 0; sample.existing "c" 1]) as [Hfirst Hsecond].
  split.
  - apply (Hfirst 0 (sample.wanted "a" "x")); vm_compute; repeat constructor.
  - apply Hsecond; try reflexivity. vm_compute. repeat constructor.
Defined.

(** C2: at every point of every run, whatever the tasks and whatever
    the order in which they complete, the set [uploading] holds no
    more futures than [--threads] (with a thread count below one the
    pool is refused and the set never comes to exist). *)
Theorem uploading_within_threads a w settings configurations existing n :
  length (in_flight (take n (main a w settings configurations existing).1))
  ≤ Z.to_nat (args.threads a).
Proof.
  revert n. change (bounded (Z.to_nat (args.threads a)) []
                      (main a w settings configurations existing).1).
  unfold main.
  pose proof (removal_phase_events a w settings configurations existing) as Hev.
  destruct (removal_phase a w settings configurations existing).2 as [e|view] eqn:Hres.
  - rewrite (bind_inl _ _ _ Hres). simpl.
    apply of_removal_bounded; [done | simpl; lia].
  - rewrite (bind_inr _ _ _ Hres). simpl. apply bounded_app.
    + apply of_removal_bounded; [done | simpl; lia].
    + rewrite of_removal_in_flight by done. apply upload_phase_bounded.
Qed.

Lemma consider_dry_run_quiet a w view s image :
  args.dry_run a = true →
  Forall (λ ev, ¬ mutation ev) (consider a w view s image).1.
Proof.
  intros Hdry. unfold consider. rewrite Hdry.
  unfold log, emit, mbind, M_bind, mret, M_ret; repeat case_bool_decide; simpl;
    repeat (constructor; [simpl; tauto |]); constructor.
Qed.

Lemma upload_phase_dry_run_quiet a w settings view :
  args.dry_run a = true →
  Forall (λ ev, ¬ mutation ev) (upload_phase a w settings view).1.
Proof.
  intros Hdry. unfold upload_phase. destruct (args.upload a); [| constructor].
  apply bind_Forall.
  { unfold ThreadPoolExecutor. case_bool_decide; constructor. }
  intros _. apply bind_Forall.
  - unfold upload_loop. apply for_each_Forall. intros s k _. unfold position.
    destruct (settings !! key_id k).
    + apply for_each_Forall. intros. by apply consider_dry_run_quiet.
    + repeat (constructor; [simpl; tauto |]); constructor.
  - intros st. repeat (constructor; [simpl; tauto |]); constructor.
Qed.

Lemma upload_loop_reports a w settings view image :
  args.dry_run a = true → image ∈ to_upload a settings view →
  Log INFO (would_upload_msg (id image)) ∈ (upload_loop a w settings view).1.
Proof.
  intros Hdry Hin. apply elem_of_logged. rewrite upload_loop_logged.
  apply list_elem_of_filter in Hin as [Hfresh Hdesired].
  apply elem_of_desired in Hdesired as (k & ids & Hk & Hids & Himage).
  apply list_elem_of_bind. exists k. split; [| apply elem_of_range; lia].
  rewrite Hids. apply list_elem_of_bind. exists image. split; [| done].
  unfold upload_report. rewrite decide_True, Hdry by done. left.
Qed.

(** C3: a dry run makes no remote mutation: its trace holds no
    removal POST, no submission to the executor and no worker's run.
    What it would do is only logged: the removals in one line, each
    upload in a line of its own. *)
Theorem dry_run_only_reports a w settings configurations existing :
  args.dry_run a = true →
  Forall (λ ev, ¬ mutation ev) (main a w settings configurations existing).1
  ∧ (args.remove a = true →
     Log INFO (would_remove_msg (images_to_remove a settings existing))
       ∈ (main a w settings configurations existing).1)
  ∧ (∀ view,
       (removal_phase a w settings configurations existing).2 = inr view →
       args.upload a = true → (0 < args.threads a)%Z →
       ∀ image, image ∈ to_upload a settings view →
         Log INFO (would_upload_msg (id image))
           ∈ (main a w settings configurations existing).1).
Proof.
  intros Hdry. repeat split.
  - unfold main. apply bind_Forall; [| intros; by apply upload_phase_dry_run_quiet].
    unfold removal_phase. rewrite Hdry. destruct (args.remove a); [| constructor].
    apply bind_Forall; [repeat (constructor; [simpl; tauto |]); constructor |].
    intros _. rewrite remove_each_trace. constructor.
  - intros Hremove.
    eapply elem_of_prefix; [| apply bind_trace_prefix].
    rewrite removal_phase_dry_run by done. left.
  - intros view Hres Hupload Hthreads image Himage.
    unfold main. rewrite (bind_inr _ _ _ Hres). simpl.
    destruct (upload_phase_on a w settings view) as (st & _ & ->); [done.. |].
    simpl. rewrite !elem_of_app. right. left. by apply upload_loop_reports.
Qed.

Lemma dry_run_only_reports_witness :
  Forall (λ ev, ¬ mutation ev)
    (main (sample.flags 2 2 true true true 4) sample.calm sample.pair
       sample.configurations [sample.existing "a" 0]).1
  ∧ Log INFO (would_remove_msg [sample.existing "a" 0])
      ∈ (main (sample.flags 2 2 true true true 4) sample.calm sample.pair
           sample.configurations [sample.existing "a" 0]).1
  ∧ Log INFO (would_upload_msg "b")
      ∈ (main (sample.flags 2 2 true true true 4) sample.calm sample.pair
           sample.configurations [sample.existing "a" 0]).1.
Proof.
  destruct (dry_run_only_reports (sample.flags 2 2 true true true 4) sample.calm
              sample.pair sample.configurations [sample.existing "a" 0])
    as (Hquiet & Hremove & Hupload); [reflexivity |].
  split; [exact Hquiet |]. split.
  - apply Hremove. reflexivity.
  - apply (Hupload [] ltac:(reflexivity) ltac:(reflexivity) ltac:(reflexivity)
             (sample.wanted "b" "y")).
    vm_compute. repeat constructor.
Defined.

(** C4, as stated, fails: in this dry run no removal call is made, so
    none succeeded, and yet the view has lost the image. *)
Lemma view_shrinks_without_removal :
  posts (removal_phase (sample.flags 2 2 false true true 4) sample.calm sample.pair
           sample.configurations [sample.existing "a" 0]).1 = []
  ∧ (removal_phase (sample.flags 2 2 false true true 4) sample.calm sample.pair
       sample.configurations [sample.existing "a" 0]).2 = inr []
  ∧ (removal_phase (sample.flags 2 2 false true true 4) sample.calm sample.pair
       sample.configurations [sample.existing "a" 0]).2
    ≠ inr [sample.existing "a" 0].
Proof. vm_compute. repeat split; discriminate. Qed.

(** Nor does the answer to a call matter: a removal the server
    refused leaves the view all the same. *)
Example view_ignores_status :
  removal_phase (sample.flags 2 2 false true false 4) sample.refusing sample.pair
    sample.configurations [sample.existing "a" 0]
  = ([Log INFO (removing_msg [sample.existing "a" 0]);
      removal_post sample.configurations (sample.existing "a" 0)],
     inr []).
Proof. vm_compute. reflexivity. Qed.

(** C4, amended: after a removal phase that comes through, the view is
    the snapshot without the images planned for removal (those whose
    id is configured at some position of the range), in the order of
    the snapshot, in a dry run as in a real one and whatever the
    server answered; with removal disabled it is the snapshot. *)
Theorem view_drops_planned_removals a w settings configurations existing view :
  (removal_phase a w settings configurations existing).2 = inr view →
  view = if args.remove a
         then filter (λ image, ¬ selected a settings image) existing
         else existing.
Proof. apply removal_phase_view. Qed.

Lemma view_drops_planned_removals_witness :
  [sample.existing "c" 1]
  = filter (λ image, ¬ selected (sample.flags 2 2 false true true 4) sample.pair image)
      [sample.existing "a" 0; sample.existing "c" 1].
Proof.
  apply (view_drops_planned_removals (sample.flags 2 2 false true true 4)
           sample.calm sample.pair sample.configurations
           [sample.existing "a" 0; sample.existing "c" 1] [sample.existing "c" 1]).
  vm_compute. reflexivity.
Defined.





(** C6, as stated, fails: a reliable execution that ends with an
    exception outside the [RuntimeError] family passes through
    [reliably_upload], which has logged its debug line only; the
    worker's run of the call holds no error line, and the exception is
    what the future stores. *)
Lemma unnamed_failure_leaves_reliably_upload :
  reliably_upload (Failed (OtherException "ConnectionError" "unreachable"))
    (sample.wanted "a" "x")
  = ([Log DEBUG (attempting_msg "a")],
     inl (OtherException "ConnectionError" "unreachable"))
  ∧ main (sample.flags 2 2 true false false 4)
      (with_exec_outcome sample.calm
         (λ f, if decide (f = 0)
               then Failed (OtherException "ConnectionError" "unreachable")
               else Completed))
      sample.pair sample.configurations []
    = ([Submit 0 (sample.wanted "a" "x");
        Task 0 [(DEBUG, attempting_msg "a")]
          (Some (OtherException "ConnectionError" "unreachable"));
        Submit 1 (sample.wanted "b" "y");
        Task 1 [(DEBUG, attempting_msg "b"); (INFO, uploaded_msg (Some "y") "b")] None;
        WaitAll [0; 1]],
       inr tt).
Proof. vm_compute. done. Qed.

(** What a worker records for a call whose reliable execution failed
    with [e], and what the future then stores. *)
Lemma worker_run_failed w f image e :
  exec_outcome w f = Failed e →
  worker_run w f image
  = Task f
      ((DEBUG, attempting_msg (id image))
         :: match e with
            | RuntimeError reason => [(ERROR, failed_msg (id image) reason)]
            | _ => []
            end)
      (match e with RuntimeError _ => None | _ => Some e end).
Proof. unfold worker_run. intros ->. by destruct e. Qed.

(** C6, amended: a reliable execution that fails with a [RuntimeError]
    is caught in [reliably_upload]: the worker logs an error with the
    image's id and the reason, and the call returns, so the future
    stores no exception. A failure of any other class is neither
    caught nor logged there: the worker's run holds the debug line
    only and the future stores the exception. Every submitted call
    whose execution fails is run in one of these two ways. In both,
    the outcomes of the reliable executions change neither how the run
    ends nor anything the main thread does: the other submissions are
    the same. *)
Theorem upload_failure_is_contained a w settings configurations existing :
  (∀ image reason,
     reliably_upload (Failed (RuntimeError reason)) image
     = ([Log DEBUG (attempting_msg (id image));
         Log ERROR (failed_msg (id image) reason)],
        inr tt))
  ∧ (∀ f image e,
       Submit f image ∈ (main a w settings configurations existing).1 →
       exec_outcome w f = Failed e →
       Task f
         ((DEBUG, attempting_msg (id image))
            :: match e with
               | RuntimeError reason => [(ERROR, failed_msg (id image) reason)]
               | _ => []
               end)
         (match e with RuntimeError _ => None | _ => Some e end)
         ∈ (main a w settings configurations existing).1)
  ∧ (∀ outcomes,
       (main a (with_exec_outcome w outcomes) settings configurations existing).2
       = (main a w settings configurations existing).2
       ∧ without_tasks
           (main a (with_exec_outcome w outcomes) settings configurations existing).1
         = without_tasks (main a w settings configurations existing).1).
Proof.
  repeat split.
  - intros f image e Hin Hfailed.
    pose proof (main_all_run a w settings configurations existing f image Hin) as Hrun.
    by rewrite (worker_run_failed _ _ _ _ Hfailed) in Hrun.
  - apply main_similar.
  - apply main_similar.
Qed.

Lemma upload_failure_is_contained_witness :
  Task 0 [(DEBUG, attempting_msg "a"); (ERROR, failed_msg "a" "gave up")] None
    ∈ (main (sample.flags 2 2 true false false 4) sample.giving_up sample.pair
         sample.configurations []).1.
Proof.
  destruct (upload_failure_is_contained (sample.flags 2 2 true false false 4)
              sample.giving_up sample.pair sample.configurations [])
    as (_ & Hlogged & _).
  apply (Hlogged 0 (sample.wanted "a" "x") (RuntimeError "gave up"));
    [vm_compute; repeat constructor | reflexivity].
Defined.

(** C7, as stated, fails: here the id list has three entries and the
    file list two, the shorter length's worth of pairs is (a, x) and
    (a, y), and one image only comes out, (a, y). *)
Lemma repeated_id_merges_pairs :
  zip (Py.split "|" "a|a|b") (Py.split "|" "x|y")
  = [("a", "x"); ("a", "y")]%string
  ∧ images_of sample.repeated_id 2 "a|a|b" = [sample.wanted "a" "y"].
Proof. vm_compute. done. Qed.

(** C7, amended: every image of a position pairs the id and the file
    name that stand at one same rank of the two lists, within the
    shorter length, and that rank is the last one at which the id
    stands there; the ids of the images are the distinct ids within
    the shorter length, each where it first stands, so that an id that
    comes twice gives one image only and there are no more images than
    the shorter list is long; when the ids so paired are distinct, the
    images are exactly the pairs up to the shorter length, in order. *)
Theorem images_of_pairs_by_rank settings image_id ids :
  (∀ image, image ∈ images_of settings image_id ids →
     ∃ i file,
       Py.split "|" ids !! i = Some (id image) ∧
       Py.split "|" (Py.or_empty (settings !! key_filename image_id)) !! i = Some file ∧
       image = {| id := id image; filename := Some file; remove_form := None |} ∧
       ∀ j, i < j →
            j < length (Py.split "|" (Py.or_empty (settings !! key_filename image_id))) →
            Py.split "|" ids !! j ≠ Some (id image))
  ∧ id <$> images_of settings image_id ids
    = first_occurrences
        (take (length (Py.split "|" (Py.or_empty (settings !! key_filename image_id))))
              (Py.split "|" ids))
  ∧ NoDup (id <$> images_of settings image_id ids)
  ∧ length (images_of settings image_id ids)
    ≤ length (Py.split "|" ids)
      `min` length (Py.split "|" (Py.or_empty (settings !! key_filename image_id)))
  ∧ (NoDup (zip (Py.split "|" ids)
                (Py.split "|" (Py.or_empty (settings !! key_filename image_id)))).*1 →
     images_of settings image_id ids
     = (λ item : string * string,
          {| id := item.1; filename := Some item.2; remove_form := None |})
       <$> zip (Py.split "|" ids)
               (Py.split "|" (Py.or_empty (settings !! key_filename image_id)))
     ∧ length (images_of settings image_id ids)
       = length (Py.split "|" ids)
         `min` length (Py.split "|" (Py.or_empty (settings !! key_filename image_id)))).
Proof.
  assert (id <$> images_of settings image_id ids
          = first_occurrences
              (take (length (Py.split "|" (Py.or_empty (settings !! key_filename image_id))))
                    (Py.split "|" ids))) as Hids.
  { unfold images_of. rewrite <- list_fmap_compose.
    change (id ∘ _) with (@fst string string).
    by rewrite dict_keys, fst_zip_take. }
  split; [| split; [done | split; [| split; [| split]]]].
  - intros image Hin. unfold images_of in Hin.
    apply list_elem_of_fmap in Hin as ([identifier file] & -> & Hin). simpl.
    apply dict_get_elem in Hin; [| rewrite dict_keys; apply first_occurrences_NoDup].
    rewrite dict_get_dict in Hin.
    apply dict_get_last in Hin as (i & Hi & Hlast).
    apply lookup_zip_with_Some in Hi as (x & y & [= <- <-] & Hx & Hy).
    exists i, file. repeat split; [done.. |].
    intros j Hij Hj Hname.
    destruct (lookup_lt_is_Some_2
                (Py.split "|" (Py.or_empty (settings !! key_filename image_id))) j Hj)
      as [file' Hfile'].
    apply (Hlast j file' Hij). apply lookup_zip_with_Some. by exists identifier, file'.
  - rewrite Hids. apply first_occurrences_NoDup.
  - unfold images_of. rewrite length_fmap.
    etrans; [apply dict_length |]. by rewrite length_zip_with.
  - unfold images_of. by rewrite dict_NoDup.
  - unfold images_of. by rewrite dict_NoDup, length_fmap, length_zip_with.
Qed.

Lemma images_of_pairs_by_rank_witness :
  images_of sample.short_files 2 "a|b" = [sample.wanted "a" "x"]
  ∧ length (images_of sample.short_files 2 "a|b") = 1.
Proof.
  destruct (images_of_pairs_by_rank sample.short_files 2 "a|b")
    as (_ & _ & _ & _ & Hpairs).
  apply Hpairs. vm_compute. repeat constructor.
  intros Hin. by apply elem_of_nil in Hin.
Defined.

Lemma consider_announced a w view s image :
  announced (consider a w view s image).1 =
  if decide (id image ∉ id <$> view)
  then (if args.dry_run a then [would_upload_msg (id image)] else [])
  else [].
Proof.
  run_consider; case_decide; try done; destruct (args.dry_run a); done.
Qed.

Lemma position_announced a w settings view s image_id :
  args.dry_run a = true →
  announced (position a w settings view s image_id).1
  = (λ image, would_upload_msg (id image))
    <$> filter (λ image, id image ∉ id <$> view) (desired_at settings image_id).
Proof.
  intros Hdry. unfold position, desired_at.
  destruct (settings !! key_id image_id) as [ids|]; [| done].
  destruct (for_each_omap
              (λ ev, match ev with Log INFO message => Some message | _ => None end)
              (consider a w view)
              (λ image, if decide (id image ∉ id <$> view)
                        then [would_upload_msg (id image)] else [])
              (images_of settings image_id ids)) with s as [Hsaid _].
  { intros s0 x. split; [| apply consider_returns].
    fold (announced (consider a w view s0 x).1).
    by rewrite consider_announced, Hdry. }
  unfold announced. rewrite Hsaid. clear Hsaid.
  induction (images_of settings image_id ids) as [|x l IH]; [done |].
  rewrite bind_cons, filter_cons, IH. by case_decide.
Qed.

Lemma upload_loop_announced a w settings view :
  args.dry_run a = true →
  announced (upload_loop a w settings view).1
  = (λ image, would_upload_msg (id image)) <$> to_upload a settings view.
Proof.
  intros Hdry. unfold upload_loop, to_upload, desired.
  destruct (for_each_omap
              (λ ev, match ev with Log INFO message => Some message | _ => None end)
              (position a w settings view)
              (λ image_id,
                 (λ image, would_upload_msg (id image))
                 <$> filter (λ image, id image ∉ id <$> view) (desired_at settings image_id))
              (Py.range (args.start a) (args.finish a + 1)))
    with {| uploading := []; submitted := 0; waited := 0 |} as [Hsaid _].
  { intros s k. split; [by apply position_announced | apply position_submissions]. }
  unfold announced. rewrite Hsaid. clear Hsaid.
  induction (Py.range _ _) as [|k ks IH]; [done |].
  by rewrite !bind_cons, filter_app, fmap_app, IH.
Qed.

(** In a dry run with a pool that can be created, an image is treated
    alike whatever the world and the number of threads. *)
Lemma consider_dry_run_threads a1 a2 w1 w2 view s image :
  args.dry_run a1 = true → args.dry_run a2 = true →
  (0 < args.threads a1)%Z → (0 < args.threads a2)%Z →
  uploading s = [] →
  consider a1 w1 view s image = consider a2 w2 view s image.
Proof.
  intros Hdry1 Hdry2 Ht1 Ht2 Hs. unfold consider. rewrite Hdry1, Hdry2, Hs. simpl.
  by rewrite !(bool_decide_eq_false_2 (_ ≤ 0)%Z) by lia.
Qed.

Lemma upload_loop_dry_run_threads a1 a2 w1 w2 settings view :
  args.start a1 = args.start a2 → args.finish a1 = args.finish a2 →
  args.dry_run a1 = true → args.dry_run a2 = true →
  (0 < args.threads a1)%Z → (0 < args.threads a2)%Z →
  upload_loop a1 w1 settings view = upload_loop a2 w2 settings view.
Proof.
  intros Hstart Hfinish Hdry1 Hdry2 Ht1 Ht2. unfold upload_loop.
  rewrite Hstart, Hfinish.
  apply (for_each_ext (λ s, uploading s = [])); [| done].
  intros s k Hs. unfold position. destruct (settings !! key_id k) as [ids|].
  - split.
    + apply (for_each_ext (λ s, uploading s = [])); [| done].
      intros s0 x Hs0. split; [by apply consider_dry_run_threads |].
      intros s'. by apply consider_dry_run_empty.
    + intros s'. apply (for_each_inv (λ s, uploading s = [])); [| done].
      intros s0 x s1 Hs0. by apply consider_dry_run_empty.
  - split; [done |]. by intros s' [= <-].
Qed.

(** C8: the plan is fixed by the settings, the range and the snapshot.
    Two dry runs, which change nothing remotely, that agree on them
    and on which phases are enabled, do and report the same, whatever
    the world, the session and the number of threads (of a pool that
    can be created): they have the same trace and the same end. The
    plan they compute is the same, the images of [images_to_remove]
    and those of [to_upload]; and when the removals from the view go
    through, what the run announces is that plan exactly: the planned
    removals in one line, then one line for each planned upload, in
    order. *)
Theorem plan_is_fixed_by_settings_range_and_snapshot
    a1 a2 w1 w2 settings configurations1 configurations2 existing :
  args.start a1 = args.start a2 → args.finish a1 = args.finish a2 →
  args.remove a1 = args.remove a2 → args.upload a1 = args.upload a2 →
  args.dry_run a1 = true → args.dry_run a2 = true →
  (0 < args.threads a1)%Z → (0 < args.threads a2)%Z →
  images_to_remove a1 settings existing = images_to_remove a2 settings existing
  ∧ (∀ view, to_upload a1 settings view = to_upload a2 settings view)
  ∧ main a1 w1 settings configurations1 existing
    = main a2 w2 settings configurations2 existing
  ∧ (∀ view,
       (removal_phase a1 w1 settings configurations1 existing).2 = inr view →
       (main a1 w1 settings configurations1 existing).2 = inr tt
       ∧ announced (main a1 w1 settings configurations1 existing).1
         = (if args.remove a1
            then [would_remove_msg (images_to_remove a1 settings existing)]
            else [])
           ++ (if args.upload a1
               then (λ image, would_upload_msg (id image)) <$> to_upload a1 settings view
               else [])).
Proof.
  intros Hstart Hfinish Hremove Hupload Hdry1 Hdry2 Ht1 Ht2.
  assert (images_to_remove a1 settings existing = images_to_remove a2 settings existing)
    as Hplan by (unfold images_to_remove; by rewrite Hstart, Hfinish).
  assert (removal_phase a1 w1 settings configurations1 existing
          = removal_phase a2 w2 settings configurations2 existing) as Hremoval.
  { unfold removal_phase. by rewrite Hremove, Hdry1, Hdry2, Hplan. }
  assert (∀ view, upload_phase a1 w1 settings view = upload_phase a2 w2 settings view)
    as Huploads.
  { intros view. unfold upload_phase, ThreadPoolExecutor. rewrite Hupload.
    destruct (args.upload a2); [| done].
    rewrite !bool_decide_eq_false_2 by lia.
    by rewrite (upload_loop_dry_run_threads a1 a2 w1 w2). }
  split; [done |]. split; [| split].
  - intros view. unfold to_upload, desired. by rewrite Hstart, Hfinish.
  - unfold main. rewrite Hremoval.
    destruct (removal_phase a2 w2 settings configurations2 existing) as [tr [e|view]];
      [done |].
    unfold mbind, M_bind; simpl. by rewrite Huploads.
  - intros view Hview. unfold main. rewrite (bind_inr _ _ _ Hview).
    assert (announced (removal_phase a1 w1 settings configurations1 existing).1
            = if args.remove a1
              then [would_remove_msg (images_to_remove a1 settings existing)]
              else []) as Hsaid.
    { destruct (args.remove a1) eqn:Hr.
      - by rewrite removal_phase_dry_run.
      - unfold removal_phase. by rewrite Hr. }
    cbn [fst snd]. unfold announced in *. rewrite omap_app, Hsaid.
    destruct (args.upload a1) eqn:Hu.
    + destruct (upload_phase_on a1 w1 settings view) as (st & _ & ->); [done.. |].
      split; [done |]. cbn [fst]. rewrite omap_app. simpl. rewrite app_nil_r.
      f_equal. by apply upload_loop_announced.
    + by rewrite upload_phase_off.
Qed.

Lemma plan_is_fixed_by_settings_range_and_snapshot_witness :
  main (sample.flags 2 3 true true true 1) sample.calm sample.pair
    sample.configurations [sample.existing "a" 0]
  = main (sample.flags 2 3 true true true 4) sample.offline sample.pair
      {| slack := {| url := "https://other.slack.com/customize/emoji"; cookie := "d=2" |};
         headers := [("Cookie", "d=2")];
         upload_folder := "/elsewhere" |}%string
      [sample.existing "a" 0]
  ∧ announced (main (sample.flags 2 3 true true true 1) sample.calm sample.pair
                 sample.configurations [sample.existing "a" 0]).1
    = [would_remove_msg [sample.existing "a" 0];
       would_upload_msg "a"; would_upload_msg "b"].
Proof.
  destruct (plan_is_fixed_by_settings_range_and_snapshot
              (sample.flags 2 3 true true true 1) (sample.flags 2 3 true true true 4)
              sample.calm sample.offline sample.pair sample.configurations
              {| slack := {| url := "https://other.slack.com/customize/emoji";
                             cookie := "d=2" |};
                 headers := [("Cookie", "d=2")];
                 upload_folder := "/elsewhere" |}%string
              [sample.existing "a" 0])
    as (_ & _ & Hsame & Hsaid);
    [reflexivity | reflexivity | reflexivity | reflexivity | reflexivity | reflexivity
    | simpl; lia | simpl; lia |].
  split; [exact Hsame |].
  destruct (Hsaid []) as [_ ->]; reflexivity.
Defined.







(** * Further properties of the two phases *)




Lemma bind_nothing {A B} (l : list A) : (l ≫= λ _, @nil B) = [].
Proof. induction l as [|x l IH]; [done | by rewrite bind_cons, IH]. Qed.



Lemma range_empty start stop : (stop ≤ start)%Z → Py.range start stop = [].
Proof. intros Hle. unfold Py.range. by replace (Z.to_nat (stop - start)) with 0 by lia. Qed.

(** X3: with [--finish] below [--start] the range is empty: nothing
    is planned for removal, the view stays the snapshot, no POST is
    issued, nothing is handed to the executor and no warning is
    logged. *)
Theorem empty_range_does_nothing a w settings configurations existing :
  (args.finish a < args.start a)%Z →
  images_to_remove a settings existing = []
  ∧ (removal_phase a w settings configurations existing).2 = inr existing
  ∧ posts (main a w settings configurations existing).1 = []
  ∧ submissions (main a w settings configurations existing).1 = []
  ∧ (∀ message, Log WARNING message ∉ (main a w settings configurations existing).1).
Proof.
  intros Hempty.
  assert (Py.range (args.start a) (args.finish a + 1) = []) as Hrange
    by (apply range_empty; lia).
  assert (images_to_remove a settings existing = []) as Hnone.
  { unfold images_to_remove. rewrite Hrange. apply bind_nothing. }
  assert (removal_phase a w settings configurations existing
          = (if args.remove a
             then [Log INFO (if args.dry_run a then would_remove_msg []
                             else removing_msg [])]
             else [],
             inr existing)) as Hphase.
  { unfold removal_phase. rewrite Hnone. destruct (args.remove a); [| done].
    by destruct (args.dry_run a). }
  assert (upload_loop a w settings existing
          = ([], inr {| uploading := []; submitted := 0; waited := 0 |})) as Hloop
    by (unfold upload_loop; by rewrite Hrange).
  assert (∀ ev, ev ∈ (main a w settings configurations existing).1 →
                (∃ message, ev = Log INFO message) ∨ ev = WaitAll []) as Hevents.
  { intros ev. unfold main. rewrite Hphase. unfold mbind, M_bind; simpl.
    rewrite elem_of_app. intros [Hin | Hin].
    - destruct (args.remove a); [| by apply elem_of_nil in Hin].
      apply list_elem_of_singleton in Hin. eauto.
    - unfold upload_phase, ThreadPoolExecutor in Hin.
      destruct (args.upload a); [| by apply elem_of_nil in Hin].
      case_bool_decide; [by apply elem_of_nil in Hin |].
      rewrite Hloop in Hin. apply list_elem_of_singleton in Hin. by right. }
  split; [done |]. split; [by rewrite Hphase |]. split; [| split].
  - destruct (posts _) as [|data rest] eqn:Hposts; [done |].
    assert (data ∈ posts (main a w settings configurations existing).1) as Hin
      by (rewrite Hposts; left).
    apply list_elem_of_omap in Hin as (ev & Hev & Hdata).
    destruct (Hevents ev Hev) as [[message ->] | ->]; discriminate.
  - rewrite main_submissions, Hphase. simpl.
    destruct (_ && _); [| done]. unfold to_upload, desired. by rewrite Hrange.
  - intros message Hin. destruct (Hevents _ Hin) as [[? ?] | ?]; discriminate.
Qed.

Lemma empty_range_does_nothing_witness :
  posts (main (sample.flags 3 2 true true false 4) sample.calm sample.twice
           sample.configurations [sample.existing "a" 0]).1 = []
  ∧ submissions (main (sample.flags 3 2 true true false 4) sample.calm sample.twice
                   sample.configurations [sample.existing "a" 0]).1 = [].
Proof.
  destruct (empty_range_does_nothing (sample.flags 3 2 true true false 4) sample.calm
              sample.twice sample.configurations [sample.existing "a" 0])
    as (_ & _ & Hposts & Hsubmissions & _); [simpl; lia |].
  by split.
Defined.

(** X4: with uploads enabled and a thread count below one, the
    removal phase is carried out all the same, and only then does the
    run end, with the [ValueError] of the pool: its trace is that of
    the removal phase. *)
Theorem refused_pool_ends_run_after_removals a w settings configurations existing :
  args.upload a = true → (args.threads a ≤ 0)%Z →
  (main a w settings configurations existing).1
  = (removal_phase a w settings configurations existing).1
  ∧ (main a w settings configurations existing).2
    = match (removal_phase a w settings configurations existing).2 with
      | inl e => inl e
      | inr _ => inl (ValueError "max_workers must be greater than 0"%string)
      end.
Proof.
  intros Hupload Hthreads. unfold main.
  destruct (removal_phase a w settings configurations existing) as [tr [e|view]];
    [done |].
  unfold mbind, M_bind; simpl.
  rewrite upload_phase_refused by done. simpl. by rewrite app_nil_r.
Qed.

Lemma refused_pool_ends_run_after_removals_witness :
  posts (main (sample.flags 2 2 true true false 0) sample.calm sample.pair
           sample.configurations [sample.existing "a" 0]).1
  = [[("remove", "a")]]%string
  ∧ (main (sample.flags 2 2 true true false 0) sample.calm sample.pair
       sample.configurations [sample.existing "a" 0]).2
    = inl (ValueError "max_workers must be greater than 0").
Proof.
  destruct (refused_pool_ends_run_after_removals (sample.flags 2 2 true true false 0)
              sample.calm sample.pair sample.configurations [sample.existing "a" 0])
    as [Htrace Hresult]; [reflexivity | simpl; lia |].
  split; [by rewrite Htrace | by rewrite Hresult].
Defined.

Lemma waits_app t1 t2 : waits (t1 ++ t2) = waits t1 + waits t2.
Proof. unfold waits. by rewrite omap_app, length_app. Qed.

(** One image: the main thread waits at most once, and only when as
    many futures were submitted as the pool has threads. *)
Lemma consider_waits a w view s image :
  (0 < args.threads a)%Z →
  length (uploading s) ≤ submitted s →
  ∃ s', (consider a w view s image).2 = inr s'
        ∧ length (uploading s') ≤ submitted s'
        ∧ submitted s ≤ submitted s'
        ∧ submitted s'
          ≤ submitted s + (if decide (id image ∉ id <$> view) then 1 else 0)
        ∧ waits (consider a w view s image).1
          ≤ (if decide (id image ∉ id <$> view)
             then (if decide (Z.to_nat (args.threads a) ≤ submitted s) then 1 else 0)
             else 0).
Proof.
  intros Hthreads Hs.
  assert (∀ c, uploading s ≠ [] →
               length (wait_first_completed c (uploading s)) < length (uploading s))
    as Hwait by (intros; by apply wait_first_completed_length).
  run_consider.
  - exists s. rewrite decide_False by tauto. unfold waits. simpl.
    repeat split; try lia.
  - assert (uploading s ≠ []) as Hfull
      by (destruct (uploading s); [simpl in *; lia | done]).
    specialize (Hwait (completion w (waited s)) Hfull).
    destruct (args.dry_run a); simpl; eexists; (split; [reflexivity |]);
      unfold waits; simpl; rewrite ?length_app; simpl;
      repeat case_decide; repeat split; try lia; done.
  - destruct (args.dry_run a); simpl; eexists; (split; [reflexivity |]);
      unfold waits; simpl; rewrite ?length_app; simpl;
      repeat case_decide; repeat split; try lia; done.
Qed.

Lemma images_wait a w view images s :
  (0 < args.threads a)%Z →
  length (uploading s) ≤ submitted s →
  ∃ s', (for_each (consider a w view) s images).2 = inr s'
        ∧ length (uploading s') ≤ submitted s'
        ∧ submitted s ≤ submitted s'
        ∧ submitted s'
          ≤ submitted s + length (filter (λ image, id image ∉ id <$> view) images)
        ∧ waits (for_each (consider a w view) s images).1
          ≤ (submitted s + length (filter (λ image, id image ∉ id <$> view) images))
            - submitted s `max` Z.to_nat (args.threads a).
Proof.
  intros Hthreads. revert s. induction images as [|image images IH]; intros s Hs.
  - exists s. unfold waits. simpl. repeat split; try lia.
  - destruct (consider_waits a w view s image Hthreads Hs)
      as (s1 & Hres1 & Hlen1 & Hlow1 & Hhigh1 & Hwaits1).
    destruct (IH s1 Hlen1) as (s2 & Hres2 & Hlen2 & Hlow2 & Hhigh2 & Hwaits2).
    exists s2. rewrite for_each_cons, (bind_inr _ _ _ Hres1). simpl.
    rewrite waits_app, filter_cons.
    destruct (decide (id image ∉ id <$> view)); simpl in *;
      (split; [done |]); (split; [done |]);
      repeat case_decide; lia.
Qed.

Lemma positions_wait a w settings view ks s :
  (0 < args.threads a)%Z →
  length (uploading s) ≤ submitted s →
  ∃ s', (for_each (position a w settings view) s ks).2 = inr s'
        ∧ length (uploading s') ≤ submitted s'
        ∧ submitted s ≤ submitted s'
        ∧ submitted s'
          ≤ submitted s
            + length (filter (λ image, id image ∉ id <$> view) (ks ≫= desired_at settings))
        ∧ waits (for_each (position a w settings view) s ks).1
          ≤ (submitted s
             + length (filter (λ image, id image ∉ id <$> view) (ks ≫= desired_at settings)))
            - submitted s `max` Z.to_nat (args.threads a).
Proof.
  intros Hthreads. revert s. induction ks as [|k ks IH]; intros s Hs.
  - exists s. unfold waits. simpl. repeat split; try lia.
  - assert (∃ s1, (position a w settings view s k).2 = inr s1
                  ∧ length (uploading s1) ≤ submitted s1
                  ∧ submitted s ≤ submitted s1
                  ∧ submitted s1
                    ≤ submitted s
                      + length (filter (λ image, id image ∉ id <$> view)
                                  (desired_at settings k))
                  ∧ waits (position a w settings view s k).1
                    ≤ (submitted s
                       + length (filter (λ image, id image ∉ id <$> view)
                                   (desired_at settings k)))
                      - submitted s `max` Z.to_nat (args.threads a))
      as (s1 & Hres1 & Hlen1 & Hlow1 & Hhigh1 & Hwaits1).
    { unfold position, desired_at. destruct (settings !! key_id k) as [ids|].
      - by apply images_wait.
      - exists s. unfold waits. simpl. repeat split; try lia. }
    destruct (IH s1 Hlen1) as (s2 & Hres2 & Hlen2 & Hlow2 & Hhigh2 & Hwaits2).
    exists s2. rewrite for_each_cons, (bind_inr _ _ _ Hres1). cbn [fst snd].
    rewrite waits_app, bind_cons, filter_app, length_app.
    (split; [done |]); (split; [done |]). lia.
Qed.

(** X5: before the final barrier the main thread waits for a first
    completion at most as many times as there are uploads beyond the
    thread count: never, when the pool has a thread for every upload. *)
Theorem waits_only_beyond_the_pool a w settings view :
  (0 < args.threads a)%Z →
  waits (upload_phase a w settings view).1
  ≤ length (to_upload a settings view) - Z.to_nat (args.threads a).
Proof.
  intros Hthreads.
  destruct (args.upload a) eqn:Hupload;
    [| rewrite upload_phase_off by done; unfold waits; simpl; lia].
  destruct (upload_phase_on a w settings view) as (st & _ & ->); [done.. |].
  simpl. rewrite waits_app. unfold upload_loop, to_upload, desired.
  destruct (positions_wait a w settings view
              (Py.range (args.start a) (args.finish a + 1))
              {| uploading := []; submitted := 0; waited := 0 |} Hthreads)
    as (s' & _ & _ & _ & _ & Hwaits); [simpl; lia |].
  simpl in Hwaits. unfold waits at 2. simpl. lia.
Qed.

Lemma waits_only_beyond_the_pool_witness :
  waits (upload_phase (sample.flags 2 3 true false false 4) sample.calm sample.twice []).1
  ≤ length (to_upload (sample.flags 2 3 true false false 4) sample.twice [])
    - Z.to_nat 4.
Proof. apply waits_only_beyond_the_pool. reflexivity. Defined.

(** X6: a reliable execution that fails with an exception outside the
    [RuntimeError] family is not caught by [reliably_upload]: the
    worker's run of the call holds its debug line only, no error line,
    and the exception, which stays in the future. [main] never reads
    it: the run ends as it does, and the main thread does what it
    does, when every reliable execution completes. *)
Theorem other_failures_stay_in_the_future a w settings configurations existing
    f image e :
  Submit f image ∈ (main a w settings configurations existing).1 →
  exec_outcome w f = Failed e →
  (∀ reason, e ≠ RuntimeError reason) →
  Task f [(DEBUG, attempting_msg (id image))] (Some e)
    ∈ (main a w settings configurations existing).1
  ∧ (main a w settings configurations existing).2
    = (main a (with_exec_outcome w (λ _, Completed)) settings configurations existing).2
  ∧ without_tasks (main a w settings configurations existing).1
    = without_tasks
        (main a (with_exec_outcome w (λ _, Completed)) settings configurations existing).1.
Proof.
  intros Hin Hfailed Hother. split.
  - pose proof (main_all_run a w settings configurations existing f image Hin) as Hrun.
    rewrite (worker_run_failed _ _ _ _ Hfailed) in Hrun.
    destruct e; try exact Hrun. by destruct (Hother message).
  - destruct (main_similar a w (λ _, Completed) settings configurations existing)
      as [Hres Htr].
    by split.
Qed.

Lemma other_failures_stay_in_the_future_witness :
  Task 0 [(DEBUG, attempting_msg "a")]
    (Some (OtherException "FileNotFoundError" "a.png"))
    ∈ (main (sample.flags 2 2 true false false 4)
         (with_exec_outcome sample.calm
            (λ _, Failed (OtherException "FileNotFoundError" "a.png")))
         sample.pair sample.configurations []).1.
Proof.
  apply (other_failures_stay_in_the_future _ _ _ _ _ 0 (sample.wanted "a" "x"));
    [vm_compute; repeat constructor | reflexivity | discriminate].
Defined.

(** X7: the images planned for removal are images of the snapshot,
    and an image of the snapshot is planned exactly when some position
    from [--start] to [--finish] has an id key whose list holds its id. *)
Theorem planned_removals_are_configured_snapshot_images a settings existing image :
  image ∈ images_to_remove a settings existing
  ↔ image ∈ existing
    ∧ ∃ image_id ids,
        (args.start a ≤ image_id ≤ args.finish a)%Z
        ∧ settings !! key_id image_id = Some ids
        ∧ id image ∈ Py.split "|" ids.
Proof.
  rewrite elem_of_images_to_remove. unfold selected. rewrite Exists_exists.
  split; intros [Hin Hsel]; (split; [done |]).
  - destruct Hsel as (k & Hk & Hconf). apply elem_of_range in Hk.
    unfold configured_at in Hconf.
    destruct (settings !! key_id k) as [ids|] eqn:Hids; [| done].
    exists k, ids. split; [lia |]. split; [done |].
    by apply bool_decide_unpack in Hconf.
  - destruct Hsel as (k & ids & Hk & Hids & Hid). exists k.
    split; [apply elem_of_range; lia |].
    unfold configured_at. rewrite Hids. by apply bool_decide_pack.
Qed.

(** * Properties of the rest of the program *)

Section io.
Context {A B : Type}.
Implicit Types (m : IO A) (k : A → IO B).

Lemma io_bind_inr m k a :
  m.2 = inr a → (m ≫= k) = (m.1 ++ (k a).1, (k a).2).
Proof. destruct m as [tr [e|a']]; simpl; intros [= <-]; reflexivity. Qed.

Lemma io_bind_inl m k e :
  m.2 = inl e → (m ≫= k) = (m.1, inl e).
Proof. destruct m as [tr [e'|a']]; simpl; intros [= <-]; reflexivity. Qed.

Lemma io_bind_result_inr m k b :
  (m ≫= k).2 = inr b → ∃ a, m.2 = inr a ∧ (k a).2 = inr b.
Proof. destruct m as [tr [e|a]]; simpl; [discriminate | eauto]. Qed.
End io.

(** ** [load_settings] *)

Section io_traces.
Context {A B : Type}.
Implicit Types (m : IO A) (k : A → IO B).

Lemma io_bind_Forall (P : Call → Prop) m k :
  Forall P m.1 → (∀ a, Forall P (k a).1) → Forall P (m ≫= k).1.
Proof.
  destruct m as [tr [e|a]]; simpl; [done |]. intros Hm Hk.
  apply Forall_app. split; [done | apply Hk].
Qed.
End io_traces.

Lemma read_into_lookup parser file section key :
  setting_in (read_into parser file) section key
  = match setting_in file section key with
    | Some value => Some value
    | None => setting_in parser section key
    end.
Proof.
  unfold setting_in, read_into. rewrite lookup_union_with.
  destruct (file !! section) as [fresh|], (parser !! section) as [old|]; simpl; try done.
  - rewrite lookup_union. by destruct (fresh !! key), (old !! key).
  - by destruct (fresh !! key).
Qed.

Lemma all_parse_cons o path paths :
  all_parse o (path :: paths)
  ↔ (∀ e, config_file o path ≠ Unparsable e) ∧ all_parse o paths.
Proof.
  unfold all_parse. split.
  - intros Hall. split; [intros e; apply Hall; left |].
    intros p e Hp. apply Hall. by right.
  - intros [Hpath Hall] p e Hp. apply elem_of_cons in Hp as [-> | Hp]; auto.
Qed.

Lemma all_parse_nil o : all_parse o [].
Proof. intros p e Hp. by apply elem_of_nil in Hp. Qed.

Lemma all_parse_app o before after :
  all_parse o (before ++ after) ↔ all_parse o before ∧ all_parse o after.
Proof.
  unfold all_parse. split.
  - intros Hall. split; intros p e Hp; apply Hall, elem_of_app; auto.
  - intros [Hb Ha] p e Hp. apply elem_of_app in Hp as [Hp | Hp]; auto.
Qed.

Lemma read_one_parsing o parser path :
  (∀ e, config_file o path ≠ Unparsable e) →
  read_one o parser path
  = ([ReadConfig path],
     inr (match config_file o path with
          | Parsed file => read_into parser file
          | _ => parser
          end)).
Proof.
  intros Hpath. unfold read_one, call, mbind, IO_bind. cbn [fst snd].
  destruct (config_file o path) as [|e|file]; [done | by destruct (Hpath e) | done].
Qed.

Lemma read_one_unparsable o parser path e :
  config_file o path = Unparsable e →
  read_one o parser path = ([ReadConfig path], inl e).
Proof.
  intros Hpath. unfold read_one, call, mbind, IO_bind. cbn [fst snd]. by rewrite Hpath.
Qed.

Lemma config_read_from_all o parser paths :
  all_parse o paths →
  config_read_from o parser paths
  = (ReadConfig <$> paths, inr (read_all o parser paths)).
Proof.
  revert parser. induction paths as [|path paths IH]; intros parser Hall; [done |].
  apply all_parse_cons in Hall as [Hpath Hall].
  cbn [config_read_from]. rewrite read_one_parsing by done.
  unfold mbind, IO_bind. cbn [fst snd]. by rewrite IH.
Qed.

(** The reading ends at the first file that does not parse. *)
Lemma config_read_from_unparsable o parser before path after e :
  all_parse o before → config_file o path = Unparsable e →
  config_read_from o parser (before ++ path :: after)
  = (ReadConfig <$> before ++ [path], inl e).
Proof.
  revert parser. induction before as [|p before IH]; intros parser Hall Hpath.
  - cbn [config_read_from app]. by rewrite (read_one_unparsable _ _ _ e).
  - apply all_parse_cons in Hall as [Hp Hall].
    cbn [config_read_from app]. rewrite read_one_parsing by done.
    unfold mbind, IO_bind. cbn [fst snd]. by rewrite IH.
Qed.

Lemma config_read_from_inr o parser paths parser' :
  (config_read_from o parser paths).2 = inr parser' → all_parse o paths.
Proof.
  revert parser. induction paths as [|path paths IH]; intros parser;
    [intros _; apply all_parse_nil |].
  cbn [config_read_from]. intros Hres.
  apply io_bind_result_inr in Hres as (p1 & Hone & Hres).
  apply all_parse_cons. split; [| by eapply IH].
  intros e Hpath. by rewrite (read_one_unparsable _ _ _ e) in Hone.
Qed.

Lemma first_setting_snoc o paths path section key :
  first_setting o (paths ++ [path]) section key
  = match first_setting o paths section key with
    | Some value => Some value
    | None => match config_file o path with
              | Parsed file => setting_in file section key
              | _ => None
              end
    end.
Proof.
  induction paths as [|p paths IH]; simpl.
  - destruct (config_file o path) as [|e|file]; [done.. |].
    by destruct (setting_in file section key).
  - destruct (config_file o p) as [|e|file]; [done.. |].
    by destruct (setting_in file section key).
Qed.

Lemma read_all_lookup o parser paths section key :
  setting_in (read_all o parser paths) section key
  = match first_setting o (reverse paths) section key with
    | Some value => Some value
    | None => setting_in parser section key
    end.
Proof.
  revert parser. induction paths as [|path paths IH]; intros parser; [done |].
  simpl. rewrite IH, reverse_cons, first_setting_snoc.
  destruct (first_setting o (reverse paths) section key); [done |].
  destruct (config_file o path) as [|e|file]; [done.. |].
  apply read_into_lookup.
Qed.

Lemma section_proxy_lookup parser profile key :
  section_proxy parser profile !! key
  = match setting_in parser profile key with
    | Some value => Some value
    | None => setting_in parser "DEFAULT" key
    end.
Proof.
  unfold section_proxy, setting_in. rewrite lookup_union.
  destruct (parser !! profile) as [sec|],
           (parser !! "DEFAULT"%string) as [defs|]; simpl;
    rewrite ?lookup_empty; try done;
    try (by destruct (sec !! key), (defs !! key));
    try (by destruct (sec !! key));
    try (by destruct (defs !! key)).
Qed.

(** What [load_settings] does when every file that opens parses. *)
Lemma load_settings_parsing o module_file config_path profile :
  all_parse o (settings_paths module_file config_path) →
  (profile ≠ "DEFAULT"%string →
   ∃ message settings,
     load_settings o module_file config_path profile
     = ([Ran (Log DEBUG (loading_msg (settings_paths module_file config_path)));
         ReadConfig (module_file +:+ ".settings");
         ReadConfig "/etc/slack_emoji_uploader/config";
         ReadConfig config_path;
         Ran (Log DEBUG message)],
        inr settings)
     ∧ ∀ key, settings !! key
              = prevailing o (settings_paths module_file config_path) profile key)
  ∧ load_settings o module_file config_path "DEFAULT"
    = ([Ran (Log DEBUG (loading_msg (settings_paths module_file config_path)));
        ReadConfig (module_file +:+ ".settings");
        ReadConfig "/etc/slack_emoji_uploader/config";
        ReadConfig config_path;
        Ran (Log DEBUG (no_profile_msg "DEFAULT"))],
       inl (ValueError "Invalid section name: 'DEFAULT'")).
Proof.
  intros Hall. split.
  - intros Hprofile. unfold load_settings, config_read.
    rewrite config_read_from_all by done.
    unfold say, call, mbind, IO_bind. cbn [fst snd].
    set (parser := read_all o ∅ (settings_paths module_file config_path)).
    assert (∀ section key,
              setting_in parser section key
              = first_setting o (reverse (settings_paths module_file config_path))
                  section key) as Hparser.
    { intros section key. unfold parser. rewrite read_all_lookup.
      unfold setting_in. rewrite lookup_empty.
      by destruct (first_setting _ _ _ _). }
    destruct (has_section parser profile) eqn:Hhas.
    + eexists _, _. split; [reflexivity |]. intros key.
      unfold prevailing. by rewrite section_proxy_lookup, !Hparser.
    + unfold add_section. rewrite decide_False by done. cbn [fst snd].
      eexists _, _. split; [reflexivity |]. intros key.
      assert (parser !! profile = None) as Hnone.
      { unfold has_section in Hhas. apply bool_decide_eq_false in Hhas.
        destruct (parser !! profile) eqn:Hp; [| done].
        destruct Hhas. split; [done | by eexists]. }
      rewrite section_proxy_lookup. unfold prevailing.
      rewrite <- (Hparser profile key), <- (Hparser "DEFAULT"%string key).
      unfold setting_in. rewrite lookup_insert_eq, lookup_insert_ne, Hnone by done.
      by rewrite lookup_empty.
  - unfold load_settings, config_read. rewrite config_read_from_all by done.
    unfold say, call, mbind, IO_bind. cbn [fst snd].
    unfold has_section. rewrite bool_decide_eq_false_2 by tauto.
    reflexivity.
Qed.

(** What [load_settings] does when a file opens and does not parse. *)
Lemma load_settings_unparsable o module_file config_path profile before path after e :
  settings_paths module_file config_path = before ++ path :: after →
  all_parse o before → config_file o path = Unparsable e →
  load_settings o module_file config_path profile
  = (Ran (Log DEBUG (loading_msg (settings_paths module_file config_path)))
       :: (ReadConfig <$> before ++ [path]),
     inl e).
Proof.
  intros Hpaths Hbefore Hpath.
  assert (config_read_from o ∅ (settings_paths module_file config_path)
          = (ReadConfig <$> before ++ [path], inl e)) as Hread.
  { rewrite Hpaths. by apply config_read_from_unparsable. }
  unfold load_settings, config_read. rewrite Hread.
  unfold say, call, mbind, IO_bind. by cbn [fst snd].
Qed.

Lemma load_settings_inr o module_file config_path profile settings :
  (load_settings o module_file config_path profile).2 = inr settings →
  profile ≠ "DEFAULT"%string ∧ all_parse o (settings_paths module_file config_path).
Proof.
  intros Hres.
  assert (all_parse o (settings_paths module_file config_path)) as Hall.
  { unfold load_settings in Hres.
    apply io_bind_result_inr in Hres as (_ & _ & Hres).
    apply io_bind_result_inr in Hres as (parser & Hread & _).
    by eapply config_read_from_inr. }
  split; [| done]. intros ->.
  destruct (load_settings_parsing o module_file config_path "DEFAULT" Hall) as [_ Hdefault].
  by rewrite Hdefault in Hres.
Qed.

(** X8: for a profile other than [DEFAULT], when every file that
    opens parses, [load_settings] returns a profile in which an option
    is stored with the value the profile's section gives it in the
    user's file, else in the system file, else in the file beside the
    module; when no file has it in that section, the value the section
    [DEFAULT] gives it, by the same priority; and none otherwise. A
    file that cannot be opened is passed over. A read of an option
    looks its name up there in lower case and returns the stored
    value interpolated over that profile, which is the stored value
    itself when it holds no percent sign. *)
Theorem load_settings_priority o module_file config_path profile :
  profile ≠ "DEFAULT"%string →
  all_parse o (settings_paths module_file config_path) →
  ∃ settings,
    (load_settings o module_file config_path profile).2 = inr settings
    ∧ (∀ key,
         settings !! key
         = prevailing o (settings_paths module_file config_path) profile key)
    ∧ (∀ name,
         ConfigParser.get settings name
         = match prevailing o (settings_paths module_file config_path) profile
                   (Py.lower name) with
           | None => inr None
           | Some value =>
               match ConfigParser.before_get settings value with
               | inl e => inl e
               | inr v => inr (Some v)
               end
           end)
    ∧ (∀ name value,
         prevailing o (settings_paths module_file config_path) profile (Py.lower name)
         = Some value →
         ConfigParser.has_percent value = false →
         ConfigParser.get settings name = inr (Some value)).
Proof.
  intros Hprofile Hall.
  destruct (load_settings_parsing o module_file config_path profile Hall) as [Hloads _].
  destruct (Hloads Hprofile) as (message & settings & -> & Hstored).
  exists settings. split; [done |]. split; [done |].
  assert (∀ name,
            ConfigParser.get settings name
            = match prevailing o (settings_paths module_file config_path) profile
                      (Py.lower name) with
              | None => inr None
              | Some value =>
                  match ConfigParser.before_get settings value with
                  | inl e => inl e
                  | inr v => inr (Some v)
                  end
              end) as Hget.
  { intros name. unfold ConfigParser.get, ConfigParser.optionxform.
    by rewrite Hstored. }
  split; [done |]. intros name value Hvalue Hplain.
  by rewrite Hget, Hvalue, before_get_plain.
Qed.

(** X9: [load_settings] returns exactly when the profile is not
    [DEFAULT] and every file that opens parses. A file that opens and
    does not parse ends it with the exception of the parser: the files
    after it are not read and nothing more is logged. When every file
    parses, the profile [DEFAULT], which is never a section and cannot
    be added, ends it with the [ValueError] of [add_section]. *)
Theorem load_settings_returns_iff_files_parse o module_file config_path profile :
  ((∃ settings, (load_settings o module_file config_path profile).2 = inr settings)
   ↔ profile ≠ "DEFAULT"%string
     ∧ all_parse o (settings_paths module_file config_path))
  ∧ (∀ before path after e,
       settings_paths module_file config_path = before ++ path :: after →
       all_parse o before → config_file o path = Unparsable e →
       load_settings o module_file config_path profile
       = (Ran (Log DEBUG (loading_msg (settings_paths module_file config_path)))
            :: (ReadConfig <$> before ++ [path]),
          inl e))
  ∧ (all_parse o (settings_paths module_file config_path) →
     load_settings o module_file config_path "DEFAULT"
     = ([Ran (Log DEBUG (loading_msg (settings_paths module_file config_path)));
         ReadConfig (module_file +:+ ".settings");
         ReadConfig "/etc/slack_emoji_uploader/config";
         ReadConfig config_path;
         Ran (Log DEBUG (no_profile_msg "DEFAULT"))],
        inl (ValueError "Invalid section name: 'DEFAULT'"))).
Proof.
  split; [split | split].
  - intros [settings Hres]. by eapply load_settings_inr.
  - intros [Hprofile Hall].
    destruct (load_settings_parsing o module_file config_path profile Hall) as [Hloads _].
    destruct (Hloads Hprofile) as (message & settings & -> & _). by eexists.
  - intros before path after e. apply load_settings_unparsable.
  - intros Hall. by apply load_settings_parsing.
Qed.

Lemma scene_all_parse first file jar paths :
  all_parse (scene.outside_with first file jar) paths.
Proof.
  intros path e _. unfold scene.outside_with. cbn [config_file].
  case_decide; discriminate.
Qed.

Lemma load_settings_priority_witness :
  ∃ settings,
    (load_settings (scene.outside scene.default_section []) "/opt/uploader/__init__.py"
       "config" "default").2 = inr settings
    ∧ ConfigParser.get settings "Section.Name" = inr (Some "DEFAULT"%string).
Proof.
  destruct (load_settings_priority (scene.outside scene.default_section [])
              "/opt/uploader/__init__.py" "config" "default")
    as (settings & Hresult & _ & _ & Hplain).
  - discriminate.
  - apply scene_all_parse.
  - exists settings. split; [exact Hresult |].
    apply Hplain; reflexivity.
Defined.

Lemma load_settings_returns_iff_files_parse_witness :
  load_settings scene.outside_unparsable "/opt/uploader/__init__.py" "config" "default"
  = ([Ran (Log DEBUG
             (loading_msg (settings_paths "/opt/uploader/__init__.py" "config")));
      ReadConfig "/opt/uploader/__init__.py.settings";
      ReadConfig "/etc/slack_emoji_uploader/config";
      ReadConfig "config"],
     inl (OtherException "MissingSectionHeaderError" "config")).
Proof.
  destruct (load_settings_returns_iff_files_parse scene.outside_unparsable
              "/opt/uploader/__init__.py" "config" "default") as (_ & Hfirst & _).
  apply (Hfirst ["/opt/uploader/__init__.py.settings"; "/etc/slack_emoji_uploader/config"]%string
           "config"%string []).
  - reflexivity.
  - intros path e Hpath.
    apply elem_of_cons in Hpath as [-> | Hpath]; [discriminate |].
    apply list_elem_of_singleton in Hpath as ->. discriminate.
  - reflexivity.
Defined.

(** The two tests of the repository. *)
Example test_default_section :
  match (load_settings (scene.outside scene.default_section [])
           "/opt/uploader/__init__.py" "config" "default").2 with
  | inr settings => ConfigParser.get settings "section.name"
  | inl e => inl e
  end = inr (Some "DEFAULT"%string).
Proof. vm_compute. reflexivity. Qed.

Example test_profile_section :
  match (load_settings (scene.outside scene.other_section [])
           "/opt/uploader/__init__.py" "config" "other").2 with
  | inr settings => ConfigParser.get settings "section.name"
  | inl e => inl e
  end = inr (Some "other"%string).
Proof. vm_compute. reflexivity. Qed.

(** ** [get_current_state] *)

Lemma lstrip_head drop s c rest :
  Str.lstrip drop s = String c rest → drop c = false.
Proof.
  induction s as [|a s IH]; simpl; [discriminate |].
  destruct (drop a) eqn:Ha; [done |]. by intros [= <- _].
Qed.

Lemma rstrip_head drop s c rest :
  Str.rstrip drop s = String c rest → ∃ rest', s = String c rest'.
Proof.
  destruct s as [|a s]; simpl; [discriminate |].
  destruct (Str.rstrip drop s).
  - destruct (drop a); [discriminate |]. intros [= <- _]. eauto.
  - intros [= <- _]. eauto.
Qed.

Lemma rstrip_last drop s front c :
  Str.rstrip drop s = front +:+ String c EmptyString → drop c = false.
Proof.
  revert front. induction s as [|a s IH]; intros front; simpl.
  - destruct front; discriminate.
  - destruct (Str.rstrip drop s) as [|k kept].
    + destruct (drop a) eqn:Ha; [destruct front; discriminate |].
      destruct front as [|x [|y front]]; simpl; try discriminate.
      by intros [= <-].
    + destruct front as [|x front]; simpl; [discriminate |].
      intros [= _ Hrest]. by apply (IH front).
Qed.

(** What [strip] leaves neither begins nor ends with a character of
    the set. *)
Lemma strip_ends drop s :
  (∀ c rest, Str.strip drop s = String c rest → drop c = false)
  ∧ (∀ front c, Str.strip drop s = front +:+ String c EmptyString → drop c = false).
Proof.
  unfold Str.strip. split.
  - intros c rest Hstrip. apply rstrip_head in Hstrip as [rest' Hhead].
    by eapply lstrip_head.
  - intros front c. apply rstrip_last.
Qed.

Lemma collect_inr {A B} (f : A → IO B) l ys :
  (collect f l).2 = inr ys ↔ Forall2 (λ x y, (f x).2 = inr y) l ys.
Proof.
  revert ys. induction l as [|x l IH]; intros ys; simpl.
  - unfold mret, IO_ret. simpl.
    split; [intros Hnil; injection Hnil as <-; constructor |].
    intros Hnil. by apply Forall2_nil_inv_l in Hnil as ->.
  - split.
    + intros Hres. apply io_bind_result_inr in Hres as (y & Hy & Hres).
      apply io_bind_result_inr in Hres as (ys' & Hys & Hres).
      unfold mret, IO_ret in Hres. simpl in Hres.
      injection Hres as <-. constructor; [done | by apply IH].
    + inversion 1 as [|? y ? ys' Hy Hys]; subst.
      apply IH in Hys. by rewrite (io_bind_inr _ _ _ Hy), (io_bind_inr _ _ _ Hys).
Qed.

Lemma row_image_inr lib row image :
  (row_image lib row).2 = inr image
  ↔ ∃ cell t cell4 form others,
      row !! 1 = Some cell ∧ text cell = Some t
      ∧ row !! 3 = Some cell4 ∧ forms cell4 = form :: others
      ∧ image = {| id := Str.strip Str.colon (Str.strip (is_space lib) t);
                   filename := None;
                   remove_form := Some form |}.
Proof.
  unfold row_image.
  destruct row as [|c0 [|c1 [|c2 [|c3 rest]]]]; simpl;
    try (split; [discriminate | by intros (? & ? & ? & ? & ? & ? & ? & ? & ? & ?)]);
    destruct (text c1) as [t|] eqn:Ht; simpl;
    try (split; [discriminate | by intros (? & ? & ? & ? & ? & ? & ? & ? & ? & ?)]).
  - rewrite app_nil_r. destruct (forms c3) as [|form others] eqn:Hforms; simpl.
    + split; [discriminate |].
      intros (? & ? & ? & ? & ? & ? & ? & [= <-] & ? & ?). congruence.
    + split.
      * intros [= <-]. by exists c1, t, c3, form, others.
      * intros (? & ? & ? & ? & ? & [= <-] & Ht' & [= <-] & Hf & ->).
        rewrite Ht in Ht'. rewrite Hforms in Hf. by simplify_eq.
  - split; [discriminate |].
    intros (? & ? & ? & ? & ? & [= <-] & ? & ? & ? & ?). congruence.
Qed.

Lemma get_current_state_result lib o settings :
  (get_current_state lib o settings).2
  = match emoji_page o with
    | FetchRaised e => inl e
    | FetchedPage page _ => (collect (row_image lib) (emoji_rows page)).2
    end.
Proof. unfold get_current_state. by destruct (emoji_page o). Qed.

(** X10: when [get_current_state] returns, it returns one image for
    each row of the table, in the order of the rows; the image has no
    file name, its id is the text of the row's second cell stripped of
    white space and then of colons, and it carries the first form of
    the row's fourth cell: every image of the snapshot has the form
    [remove] needs. *)
Theorem snapshot_follows_the_rows lib o settings images :
  (get_current_state lib o settings).2 = inr images →
  ∃ page jar,
    emoji_page o = FetchedPage page jar
    ∧ Forall2 (λ row image,
                 ∃ cell t cell4 form others,
                   row !! 1 = Some cell ∧ text cell = Some t
                   ∧ row !! 3 = Some cell4 ∧ forms cell4 = form :: others
                   ∧ image = {| id := Str.strip Str.colon (Str.strip (is_space lib) t);
                                filename := None;
                                remove_form := Some form |})
        (emoji_rows page) images
    ∧ Forall (λ image, filename image = None ∧ is_Some (remove_form image)) images.
Proof.
  rewrite get_current_state_result.
  destruct (emoji_page o) as [e|page jar]; [discriminate |].
  intros Hrows. apply collect_inr in Hrows. exists page, jar. split; [done |].
  assert (Forall2 (λ row image,
                     ∃ cell t cell4 form others,
                       row !! 1 = Some cell ∧ text cell = Some t
                       ∧ row !! 3 = Some cell4 ∧ forms cell4 = form :: others
                       ∧ image = {| id := Str.strip Str.colon (Str.strip (is_space lib) t);
                                    filename := None;
                                    remove_form := Some form |})
            (emoji_rows page) images) as Hshape.
  { eapply Forall2_impl; [exact Hrows |]. intros row image. apply row_image_inr. }
  split; [done |].
  clear Hrows. induction Hshape as [|row image rows images' Himage _ IH];
    constructor; [| done].
  destruct Himage as (? & ? & ? & ? & ? & _ & _ & _ & _ & ->). by split.
Qed.

Lemma snapshot_follows_the_rows_witness :
  ∃ page jar,
    emoji_page (scene.outside scene.team_section []) = FetchedPage page jar
    ∧ Forall (λ image, filename image = None ∧ is_Some (remove_form image))
        [sample.existing "a" 0; sample.existing "b" 1].
Proof.
  destruct (snapshot_follows_the_rows scene.library
              (scene.outside scene.team_section []) sample.configurations
              [sample.existing "a" 0; sample.existing "b" 1])
    as (page & jar & Hpage & _ & Hforms); [vm_compute; reflexivity |].
  by exists page, jar.
Defined.

(** X11: [get_current_state] returns a snapshot exactly when the page
    could be opened and every row has a text in its second cell and a
    form in its fourth; one row that lacks either makes it raise, and
    no partial snapshot comes back. *)
Theorem snapshot_is_all_or_nothing lib o settings :
  (∃ images, (get_current_state lib o settings).2 = inr images)
  ↔ ∃ page jar, emoji_page o = FetchedPage page jar ∧ Forall row_ok (emoji_rows page).
Proof.
  rewrite get_current_state_result. split.
  - intros [images Hres].
    destruct (emoji_page o) as [e|page jar]; [discriminate |].
    exists page, jar. split; [done |].
    apply collect_inr in Hres.
    induction Hres as [|row image rows images' Himage _ IH]; constructor; [| done].
    apply row_image_inr in Himage
      as (cell & t & cell4 & form & others & ? & ? & ? & ? & _).
    split; eauto 10.
  - intros (page & jar & -> & Hrows).
    induction Hrows as [|row rows Hrow _ [images IH]].
    + by exists [].
    + destruct Hrow as [(cell & t & Hcell & Ht) (cell4 & form & others & Hcell4 & Hforms)].
      eexists (_ :: images). apply collect_inr. constructor; [| by apply collect_inr].
      apply row_image_inr. by exists cell, t, cell4, form, others.
Qed.

(** X12: no id of the snapshot begins or ends with a colon. *)
Theorem snapshot_ids_have_no_outer_colon lib o settings images image :
  (get_current_state lib o settings).2 = inr images →
  image ∈ images →
  (∀ rest, id image ≠ String ":" rest)
  ∧ (∀ front, id image ≠ front +:+ String ":" EmptyString).
Proof.
  rewrite get_current_state_result.
  destruct (emoji_page o) as [e|page jar]; [discriminate |].
  intros Hrows Hin. apply collect_inr in Hrows.
  assert (∃ t, id image = Str.strip Str.colon t) as [t Hid].
  { induction Hrows as [|row image' rows images' Himage _ IH];
      [by apply elem_of_nil in Hin |].
    apply elem_of_cons in Hin as [-> | Hin]; [| by apply IH].
    apply row_image_inr in Himage as (? & t & ? & ? & ? & _ & _ & _ & _ & ->).
    by eexists. }
  destruct (strip_ends Str.colon t) as [Hfirst Hlast]. rewrite Hid. split.
  - intros rest Heq. by specialize (Hfirst _ _ Heq).
  - intros front Heq. by specialize (Hlast _ _ Heq).
Qed.

Lemma snapshot_ids_have_no_outer_colon_witness :
  (∀ rest, "a"%string ≠ String ":" rest)
  ∧ (∀ front, "a"%string ≠ front +:+ String ":" EmptyString).
Proof.
  apply (snapshot_ids_have_no_outer_colon scene.library
           (scene.outside scene.team_section []) sample.configurations
           [sample.existing "a" 0; sample.existing "b" 1] (sample.existing "a" 0));
    [vm_compute; reflexivity | left].
Defined.

(** ** [process_cookies] and [log_in_to_slack] *)

Lemma string_length_app s t :
  String.length (s +:+ t) = String.length s + String.length t.
Proof. induction s as [|c s IH]; simpl; [done | by rewrite IH]. Qed.

(** The cookie string of a jar that holds a cookie is longer than
    one character. *)
Lemma cookie_header_of_some first jar :
  1 < String.length (cookie_header (first :: jar)).
Proof.
  destruct first as [name value].
  unfold cookie_header. rewrite string_length_app.
  simpl. destruct jar as [|cookie jar]; simpl;
    rewrite ?string_length_app; simpl; lia.
Qed.

Lemma cookie_header_bare jar : cookie_header jar = ";"%string → jar = [].
Proof.
  destruct jar as [|first jar]; [done |].
  intros Hbare. pose proof (cookie_header_of_some first jar) as Hlong.
  rewrite Hbare in Hlong. simpl in Hlong. lia.
Qed.

(** X13: the cookie string [process_cookies] builds is [";"] exactly
    when the jar is empty, which is the test by which
    [log_in_to_slack] decides to ask for a second factor. *)
Theorem cookie_header_is_bare_iff_no_cookie jar :
  cookie_header jar = ";"%string ↔ jar = [].
Proof.
  split; [apply cookie_header_bare | by intros ->].
Qed.

Ltac run_io :=
  unfold process_cookies, first_of, say, call, fail, mbind, IO_bind, mret, IO_ret;
  cbn [fst snd].

Section login.
Variables (lib : Library) (o : Outside) (slack_team : string).
Variable with_headers : list (string * string).

Let log_in_url : string := ("https://" +:+ slack_team +:+ ".slack.com/")%string.

Lemma log_in_to_slack_events :
  phase_events (log_in_to_slack lib o slack_team with_headers).1
  = [Log DEBUG "Requesting user name";
     Log DEBUG ("Requesting password for " +:+ quoted (typed o "Email Address: "))].
Proof.
  unfold log_in_to_slack. run_io.
  destruct (login_page o 0) as [e0|page0 jar0]; [done |]. cbn [fst snd].
  destruct (filter _ (body_forms page0)) as [|sign_in others]; [done |]. cbn [fst snd].
  destruct (login_page o 1) as [e1|page1 jar1]; [done |]. cbn [fst snd].
  destruct (decide (cookie_header jar1 = ";"%string)); [| done].
  destruct (body_forms page1) as [|mfa more]; [done |]. cbn [fst snd].
  by destruct (login_page o 2) as [e2|page2 jar2].
Qed.

(** X14: whatever the outside does, [log_in_to_slack] makes two log
    calls: one fixed line, and one naming the email address. The
    password and the second factor, which the trace records only at
    the prompts and in the data of the requests, are never logged, and
    nothing of the two phases happens during the login. *)
Theorem login_logs_no_secret :
  phase_events (log_in_to_slack lib o slack_team with_headers).1
  = [Log DEBUG "Requesting user name";
     Log DEBUG ("Requesting password for " +:+ quoted (typed o "Email Address: "))]
  ∧ ∀ ev, Ran ev ∈ (log_in_to_slack lib o slack_team with_headers).1 →
          ∃ message, ev = Log DEBUG message.
Proof.
  split; [apply log_in_to_slack_events |].
  intros ev Hin.
  assert (ev ∈ phase_events (log_in_to_slack lib o slack_team with_headers).1) as Hev.
  { unfold phase_events. apply list_elem_of_omap. by exists (Ran ev). }
  rewrite log_in_to_slack_events in Hev.
  apply elem_of_cons in Hev as [-> | Hev]; [eauto |].
  apply elem_of_cons in Hev as [-> | Hev]; [eauto |].
  by apply elem_of_nil in Hev.
Qed.

(** X15: every request of [log_in_to_slack] goes to the team's URL
    with the headers it was given, the first one without data; there
    are at most three. *)
Theorem login_requests_use_given_headers :
  Forall (λ request, request.1 = (log_in_url, with_headers))
    (requests (log_in_to_slack lib o slack_team with_headers).1)
  ∧ length (requests (log_in_to_slack lib o slack_team with_headers).1) ≤ 3
  ∧ head (requests (log_in_to_slack lib o slack_team with_headers).1)
    = Some (log_in_url, with_headers, None).
Proof.
  unfold log_in_to_slack. run_io. fold log_in_url.
  destruct (login_page o 0) as [e0|page0 jar0];
    [cbn; repeat split; [repeat constructor | lia] |]. cbn [fst snd].
  destruct (filter _ (body_forms page0)) as [|sign_in others];
    [cbn; repeat split; [repeat constructor | lia] |]. cbn [fst snd].
  destruct (login_page o 1) as [e1|page1 jar1];
    [cbn; repeat split; [repeat constructor | lia] |]. cbn [fst snd].
  destruct (decide (cookie_header jar1 = ";"%string));
    [| cbn; repeat split; [repeat constructor | lia]].
  destruct (body_forms page1) as [|mfa more];
    [cbn; repeat split; [repeat constructor | lia] |]. cbn [fst snd].
  destruct (login_page o 2) as [e2|page2 jar2];
    cbn; repeat split; (repeat constructor) || lia.
Qed.

(** X16: when the first page has no form [signin_form],
    [log_in_to_slack] raises [IndexError] after it has asked for the
    email address and the password, and sends neither: its only
    request is the one, without data, that fetched the page. *)
Theorem login_without_form_sends_nothing page jar :
  login_page o 0 = FetchedPage page jar →
  filter (λ form, form_id form = Some "signin_form"%string) (body_forms page) = [] →
  (log_in_to_slack lib o slack_team with_headers).2
  = inl (OtherException "IndexError" "list index out of range")
  ∧ prompts (log_in_to_slack lib o slack_team with_headers).1
    = [Input "Email Address: "; GetPass]
  ∧ requests (log_in_to_slack lib o slack_team with_headers).1
    = [(log_in_url, with_headers, None)].
Proof.
  intros Hpage Hforms. unfold log_in_to_slack. run_io.
  rewrite Hpage. cbn [fst snd]. by rewrite Hforms.
Qed.

(** X17: when the sign-in form is found, the data of the second
    request are the form's hidden inputs with the typed email address
    and the password set over them: a hidden input named [email] or
    [password] does not survive, every other keeps its last value. *)
Theorem login_posts_the_typed_credentials page jar sign_in others :
  login_page o 0 = FetchedPage page jar →
  filter (λ form, form_id form = Some "signin_form"%string) (body_forms page)
  = sign_in :: others →
  ∃ form_data,
    requests (log_in_to_slack lib o slack_team with_headers).1 !! 1
    = Some (log_in_url, with_headers, Some (urlencode lib form_data))
    ∧ dict_get "email"%string form_data = Some (typed o "Email Address: ")
    ∧ dict_get "password"%string form_data = Some (password o)
    ∧ ∀ name, name ≠ "email"%string → name ≠ "password"%string →
        dict_get name form_data
        = dict_get name (reverse (hidden_inputs (form_of sign_in))).
Proof.
  intros Hpage Hforms.
  exists (Py.dict_set "password" (password o)
            (Py.dict_set "email" (typed o "Email Address: ") (hidden_of sign_in))).
  split; [| split; [| split]].
  - unfold log_in_to_slack. run_io.
    rewrite Hpage. cbn [fst snd]. rewrite Hforms. cbn [fst snd].
    by destruct (login_page o 1).
  - by rewrite !dict_get_set.
  - by rewrite dict_get_set.
  - intros name Hemail Hpassword.
    rewrite !dict_get_set, !decide_False by done. apply dict_get_dict.
Qed.


End login.

Lemma login_without_form_sends_nothing_witness :
  requests (log_in_to_slack scene.library
              (scene.outside_with scene.empty_page scene.team_only []) "team" []).1
  = [("https://team.slack.com/"%string, [], None)].
Proof.
  destruct (login_without_form_sends_nothing scene.library
              (scene.outside_with scene.empty_page scene.team_only []) "team" []
              scene.empty_page [])
    as (_ & _ & Hrequests); [reflexivity | reflexivity |].
  exact Hrequests.
Defined.

Lemma login_posts_the_typed_credentials_witness :
  ∃ form_data,
    dict_get "email"%string form_data = Some "me@example.com"%string
    ∧ dict_get "password"%string form_data = Some "secret"%string
    ∧ dict_get "crumb"%string form_data = Some "c1"%string.
Proof.
  destruct (login_posts_the_typed_credentials scene.library
              (scene.outside scene.team_only []) "team" [] scene.sign_in_page []
              {| form_id := Some "signin_form"%string;
                 form_of := scene.form 0 [("crumb", "c1"); ("email", "preset")]%string |}
              [])
    as (form_data & _ & Hemail & Hpassword & Hothers); [reflexivity | reflexivity |].
  exists form_data. split; [exact Hemail |]. split; [exact Hpassword |].
  rewrite Hothers by discriminate. reflexivity.
Defined.


(** ** [main] before the two phases *)

Lemma io_bind_mret_trace {A B} (m : IO A) (f : A → B) :
  (m ≫= λ a, ([], inr (f a))).1 = m.1.
Proof.
  destruct m as [tr [e|a]]; [done |].
  unfold mbind, IO_bind. simpl. by rewrite app_nil_r.
Qed.

Lemma io_bind_mret_l {A B} (x : A) (k : A → IO B) : (mret x ≫= k) = k x.
Proof. unfold mbind, IO_bind, mret, IO_ret; simpl. by destruct (k x). Qed.

Lemma row_image_trace lib row : (row_image lib row).1 = [].
Proof.
  unfold row_image. run_io.
  destruct row as [|c0 [|c1 [|c2 [|c3 rest]]]]; simpl; try done;
    destruct (text c1); simpl; try done;
    rewrite ?app_nil_r; by destruct (forms c3).
Qed.

Lemma collect_trace {A B} (f : A → IO B) l :
  (∀ x, (f x).1 = []) → (collect f l).1 = [].
Proof.
  intros Hf. induction l as [|x l IH]; [done |]. simpl.
  pose proof (Hf x) as Hx.
  destruct (f x) as [tx [e|y]]; simpl in Hx; subst tx; [done |].
  rewrite (io_bind_inr ([], inr y) _ y eq_refl). cbn [fst snd].
  unfold mret, IO_ret. by rewrite io_bind_mret_trace, IH.
Qed.

Lemma get_current_state_trace lib o settings :
  (get_current_state lib o settings).1
  = [UrlOpen (url (slack settings)) (headers settings) None].
Proof.
  unfold get_current_state. run_io.
  destruct (emoji_page o) as [e|page jar]; [done |].
  by rewrite collect_trace by apply row_image_trace.
Qed.

Lemma load_settings_trace o module_file config_path profile settings :
  (load_settings o module_file config_path profile).2 = inr settings →
  ∃ message,
    (load_settings o module_file config_path profile).1
    = [Ran (Log DEBUG (loading_msg (settings_paths module_file config_path)));
       ReadConfig (module_file +:+ ".settings");
       ReadConfig "/etc/slack_emoji_uploader/config";
       ReadConfig config_path;
       Ran (Log DEBUG message)].
Proof.
  intros Hres. apply load_settings_inr in Hres as [Hprofile Hall].
  destruct (load_settings_parsing o module_file config_path profile Hall) as [Hloads _].
  destruct (Hloads Hprofile) as (message & loaded & -> & _). by exists message.
Qed.

Lemma io_reading_inr {A B} (x : A) (k : A → IO B) : (io_reading (inr x) ≫= k) = k x.
Proof. apply io_bind_mret_l. Qed.

Lemma io_reading_inl {A B} (e : Exn) (k : A → IO B) :
  (io_reading (inl e) ≫= k) = ([], inl e).
Proof. done. Qed.

(** The headers before the cookie: the user agent at most. *)
Lemma initial_headers_inr settings hs :
  initial_headers settings = inr hs →
  hs = [] ∨ ∃ user_agent, hs = [("User-Agent"%string, user_agent)].
Proof.
  unfold initial_headers.
  destruct (ConfigParser.has_option settings "browser.user_agent"%string);
    [| intros [= <-]; by left].
  destruct (ConfigParser.getitem settings "browser.user_agent"%string) as [e|ua];
    [done |]. intros [= <-]. right. by exists ua.
Qed.

Lemma initial_headers_cookie settings hs value :
  initial_headers settings = inr hs →
  dict_get "Cookie"%string hs = None
  ∧ Py.dict_set "Cookie"%string value hs = hs ++ [("Cookie"%string, value)].
Proof.
  intros Hhs. by destruct (initial_headers_inr _ _ Hhs) as [-> | [ua ->]].
Qed.

Section setup.
Variables (lib : Library) (o : Outside) (c : cli.t).
Variable settings : gmap string string.
Hypothesis loaded :
  (load_settings o (cli.module_file c) (cli.config c) (cli.profile c)).2 = inr settings.

(** X19: when the profile has no [slack.team], the run ends as soon
    as the settings are loaded, with nothing asked and no request
    made: with a [KeyError], or, when the user agent is stored with a
    value that does not interpolate, with the exception of that read,
    which comes first. *)
Theorem missing_team_ends_run_at_once :
  settings !! "slack.team"%string = None →
  main_setup lib o c
  = ((load_settings o (cli.module_file c) (cli.config c) (cli.profile c)).1,
     match initial_headers settings with
     | inl e => inl e
     | inr _ => inl (OtherException "KeyError" "'slack.team'")
     end).
Proof.
  intros Hteam. unfold main_setup.
  rewrite (io_bind_inr _ _ _ loaded). cbn [fst snd].
  destruct (initial_headers settings) as [e|hs].
  - unfold io_reading, mbind, IO_bind. cbn [fst snd]. by rewrite app_nil_r.
  - assert (ConfigParser.getitem settings "slack.team"
            = inl (OtherException "KeyError" "'slack.team'")) as ->.
    { unfold ConfigParser.getitem.
      change (ConfigParser.optionxform "slack.team") with "slack.team"%string.
      by rewrite Hteam. }
    unfold io_reading, mbind, IO_bind. cbn [fst snd]. by rewrite !app_nil_r.
Qed.

(** X20: with a [slack.cookie] that reads as a text that is not
    empty, nothing is asked and no login request is made: the only
    request is the one for the emoji page of the team, and its headers
    are the user agent, when the profile has one, and the cookie as
    read, which is the stored text interpolated. A stored cookie that
    does not interpolate ends the run at that read, before any
    request. *)
Theorem configured_cookie_skips_login hs team :
  initial_headers settings = inr hs →
  ConfigParser.getitem settings "slack.team" = inr team →
  (∀ configured,
     ConfigParser.get settings "slack.cookie" = inr (Some configured) →
     configured ≠ EmptyString →
     prompts (main_setup lib o c).1 = []
     ∧ requests (main_setup lib o c).1
       = [(("https://" +:+ team +:+ ".slack.com/customize/emoji")%string,
           hs ++ [("Cookie"%string, configured)],
           None)])
  ∧ (∀ e,
       ConfigParser.get settings "slack.cookie" = inl e →
       main_setup lib o c
       = ((load_settings o (cli.module_file c) (cli.config c) (cli.profile c)).1,
          inl e)).
Proof.
  intros Hheaders Hteam.
  destruct (load_settings_trace o (cli.module_file c) (cli.config c) (cli.profile c)
              settings loaded) as [message Htrace].
  split.
  - intros configured Hcookie Hfilled.
    assert ((main_setup lib o c).1
            = (load_settings o (cli.module_file c) (cli.config c) (cli.profile c)).1
              ++ [UrlOpen ("https://" +:+ team +:+ ".slack.com/customize/emoji")%string
                    (hs ++ [("Cookie"%string, configured)]) None]) as ->.
    { unfold main_setup. rewrite (io_bind_inr _ _ _ loaded). cbn [fst snd].
      rewrite Hheaders, Hteam, Hcookie.
      destruct configured as [|ch rest]; [done |].
      unfold io_reading. unfold mbind at 1 2 3 4, IO_bind at 1 2 3 4, mret, IO_ret.
      cbn [fst snd app].
      rewrite io_bind_mret_trace, get_current_state_trace. cbn [slack url headers].
      by destruct (initial_headers_cookie _ _ (String ch rest) Hheaders) as [_ ->]. }
    by rewrite Htrace.
  - intros e Hcookie. unfold main_setup.
    rewrite (io_bind_inr _ _ _ loaded). cbn [fst snd].
    rewrite Hheaders, Hteam, Hcookie.
    unfold io_reading, mbind, IO_bind. cbn [fst snd]. by rewrite !app_nil_r.
Qed.

(** X21: without a [slack.cookie], or with one that reads as the
    empty text, [log_in_to_slack] is run next, for the team of the
    profile and with headers that hold no cookie. *)
Theorem empty_cookie_means_login hs team :
  initial_headers settings = inr hs →
  ConfigParser.getitem settings "slack.team" = inr team →
  ConfigParser.get settings "slack.cookie" = inr None
  ∨ ConfigParser.get settings "slack.cookie" = inr (Some EmptyString) →
  dict_get "Cookie"%string hs = None
  ∧ ∃ rest,
      (main_setup lib o c).1
      = (load_settings o (cli.module_file c) (cli.config c) (cli.profile c)).1
        ++ (log_in_to_slack lib o team hs).1 ++ rest.
Proof.
  intros Hheaders Hteam Hcookie. split.
  { by destruct (initial_headers_cookie _ _ EmptyString Hheaders). }
  unfold main_setup. rewrite (io_bind_inr _ _ _ loaded). cbn [fst snd].
  rewrite Hheaders, Hteam.
  assert (∀ k : string → IO (gmap string string * Settings * list Image),
            ∃ rest, (log_in_to_slack lib o team hs ≫= k).1
                    = (log_in_to_slack lib o team hs).1 ++ rest)
    as Hrest.
  { intros k. destruct (log_in_to_slack lib o team hs) as [tr [e|ck]].
    - exists []. by rewrite app_nil_r.
    - eexists. unfold mbind, IO_bind. cbn [fst snd]. reflexivity. }
  destruct Hcookie as [-> | ->]; rewrite !io_reading_inr;
    match goal with
    | |- ∃ rest, _ ++ (_ ≫= ?k).1 = _ =>
        destruct (Hrest k) as [rest ->]; by exists rest
    end.
Qed.

End setup.

Lemma missing_team_ends_run_at_once_witness :
  (main_setup scene.library (scene.outside scene.default_section []) scene.command_line).2
  = inl (OtherException "KeyError" "'slack.team'").
Proof.
  rewrite (missing_team_ends_run_at_once scene.library
             (scene.outside scene.default_section []) scene.command_line
             {[ "section.name"%string := "DEFAULT"%string ]});
    [reflexivity | vm_compute; reflexivity | reflexivity].
Defined.

Lemma configured_cookie_skips_login_witness :
  (prompts (main_setup scene.library (scene.outside scene.escaped_section [])
              scene.command_line).1 = []
   ∧ requests (main_setup scene.library (scene.outside scene.escaped_section [])
                 scene.command_line).1
     = [("https://team.slack.com/customize/emoji"%string,
         [("Cookie"%string, "d=a%2Fb"%string)], None)])
  ∧ (main_setup scene.library (scene.outside scene.encoded_section [])
       scene.command_line).2
    = inl ConfigParser.lone_percent.
Proof.
  assert ((load_settings (scene.outside scene.escaped_section [])
             (cli.module_file scene.command_line) (cli.config scene.command_line)
             (cli.profile scene.command_line)).2
          = inr ({[ "slack.team"%string := "team"%string;
                    "slack.cookie"%string := "d=a%%2Fb"%string ]} : gmap string string))
    as Hescaped by (vm_compute; reflexivity).
  assert ((load_settings (scene.outside scene.encoded_section [])
             (cli.module_file scene.command_line) (cli.config scene.command_line)
             (cli.profile scene.command_line)).2
          = inr ({[ "slack.team"%string := "team"%string;
                    "slack.cookie"%string := "d=a%2Fb"%string ]} : gmap string string))
    as Hencoded by (vm_compute; reflexivity).
  split.
  - destruct (configured_cookie_skips_login scene.library _ _ _ Hescaped
                [] "team"%string) as [Hread _]; [reflexivity | reflexivity |].
    apply (Hread "d=a%2Fb"%string); [reflexivity | discriminate].
  - destruct (configured_cookie_skips_login scene.library _ _ _ Hencoded
                [] "team"%string) as [_ Hraise]; [reflexivity | reflexivity |].
    by rewrite (Hraise ConfigParser.lone_percent) by reflexivity.
Defined.

Lemma empty_cookie_means_login_witness :
  ∃ rest,
    (main_setup scene.library (scene.outside scene.team_only []) scene.command_line).1
    = (load_settings (scene.outside scene.team_only []) "/opt/uploader/__init__.py"
         "config" "default").1
      ++ (log_in_to_slack scene.library (scene.outside scene.team_only []) "team" []).1
      ++ rest.
Proof.
  assert ((load_settings (scene.outside scene.team_only [])
             (cli.module_file scene.command_line) (cli.config scene.command_line)
             (cli.profile scene.command_line)).2
          = inr ({[ "slack.team"%string := "team"%string ]} : gmap string string))
    as Hloaded by (vm_compute; reflexivity).
  destruct (empty_cookie_means_login scene.library _ _ _ Hloaded [] "team"%string)
    as [_ Hlogin]; [reflexivity | reflexivity | left; reflexivity |].
  exact Hlogin.
Defined.

(** ** [upload] *)

Ltac run_upload :=
  unfold upload; run_io.


(** X23: a POST of [upload] is made only once the file was opened;
    it goes to the emoji URL with the session's headers, its file is
    the image's file name resolved against the upload folder, and in
    its data [name] is the image's id and [mode] is [data] whatever the
    hidden inputs of the form say, while every other field has the
    last value the hidden inputs give it. *)
Theorem upload_posts_the_image lib o image settings to hs data img :
  UploadPost to hs data img ∈ (upload lib o image settings).1 →
  to = url (slack settings) ∧ hs = headers settings
  ∧ dict_get "name"%string data = Some (id image)
  ∧ dict_get "mode"%string data = Some "data"%string
  ∧ (∃ file, filename image = Some file
             ∧ img = path_join lib (upload_folder settings) file
             ∧ file_error o img = None)
  ∧ OpenFile img ∈ (upload lib o image settings).1
  ∧ ∃ page jar form others,
      add_page o = FetchedPage page jar
      ∧ filter (λ form, form_id form = Some "addemoji"%string) (body_forms page)
        = form :: others
      ∧ ∀ field, field ≠ "name"%string → field ≠ "mode"%string →
          dict_get field data = dict_get field (reverse (hidden_inputs (form_of form))).
Proof.
  run_upload.
  destruct (add_page o) as [e|page jar]; cbn [fst snd];
    [intros Hin; repeat (apply elem_of_cons in Hin as [Hin | Hin]; [discriminate |]);
     by apply elem_of_nil in Hin |].
  destruct (filter _ (body_forms page)) as [|form others] eqn:Hforms; cbn [fst snd];
    [intros Hin; repeat (apply elem_of_cons in Hin as [Hin | Hin]; [discriminate |]);
     by apply elem_of_nil in Hin |].
  destruct (filename image) as [file|]; cbn [fst snd];
    [| intros Hin; repeat (apply elem_of_cons in Hin as [Hin | Hin]; [discriminate |]);
       by apply elem_of_nil in Hin].
  destruct (file_error o (path_join lib (upload_folder settings) file)) as [e|] eqn:Hfile;
    cbn [fst snd];
    [intros Hin; repeat (apply elem_of_cons in Hin as [Hin | Hin]; [discriminate |]);
     by apply elem_of_nil in Hin |].
  assert (∀ tail,
            UploadPost to hs data img
              ∈ [UrlOpen (url (slack settings)) (headers settings) None;
                 Ran (Log DEBUG (opening_msg (path_join lib (upload_folder settings) file)));
                 OpenFile (path_join lib (upload_folder settings) file);
                 UploadPost (url (slack settings)) (headers settings)
                   (Py.dict_set "mode" "data"
                      (Py.dict_set "name" (id image) (hidden_of form)))
                   (path_join lib (upload_folder settings) file)] ++ tail →
            tail = [] →
            to = url (slack settings) ∧ hs = headers settings
            ∧ dict_get "name"%string data = Some (id image)
            ∧ dict_get "mode"%string data = Some "data"%string
            ∧ (∃ file', Some file = Some file'
                        ∧ img = path_join lib (upload_folder settings) file'
                        ∧ file_error o img = None)
            ∧ img = path_join lib (upload_folder settings) file
            ∧ ∀ field, field ≠ "name"%string → field ≠ "mode"%string →
                dict_get field data
                = dict_get field (reverse (hidden_inputs (form_of form)))) as Hpost.
  { intros tail Hin ->. rewrite app_nil_r in Hin.
    repeat (apply elem_of_cons in Hin as [Hin | Hin]; [try discriminate |]);
      [| by apply elem_of_nil in Hin].
    injection Hin as -> -> -> ->.
    split; [done |]. split; [done |].
    split; [by rewrite !dict_get_set |]. split; [by rewrite dict_get_set |].
    split; [by exists file |]. split; [done |].
    intros field Hname Hmode.
    rewrite !dict_get_set, !decide_False by done. apply dict_get_dict. }
  destruct (upload_post o) as [status|e]; cbn [fst snd]; intros Hin;
    destruct (Hpost [] Hin eq_refl) as (-> & -> & Hn & Hm & Hf & -> & Hothers);
    (split; [done |]); (split; [done |]); (split; [done |]); (split; [done |]);
    (split; [done |]);
    (split; [do 2 apply list_elem_of_further; apply list_elem_of_here |]);
    by exists page, jar, form, others.
Qed.

Lemma upload_posts_the_image_witness :
  dict_get "name"%string
    (Py.dict_set "mode" "data"
       (Py.dict_set "name" "a" [("crumb", "c2"); ("mode", "url")]))%string
  = Some "a"%string
  ∧ dict_get "mode"%string
      (Py.dict_set "mode" "data"
         (Py.dict_set "name" "a" [("crumb", "c2"); ("mode", "url")]))%string
    = Some "data"%string.
Proof.
  destruct (upload_posts_the_image scene.library (scene.outside scene.team_section [])
              (sample.wanted "a" "a.png") sample.configurations
              "https://team.slack.com/customize/emoji"%string
              [("Cookie", "d=1")]%string
              (Py.dict_set "mode" "data"
                 (Py.dict_set "name" "a" [("crumb", "c2"); ("mode", "url")]))%string
              "/emoji/a.png"%string)
    as (_ & _ & Hname & Hmode & _);
    [vm_compute; repeat constructor |].
  by split.
Defined.

(** ** The reads of the two phases

    When the values of the keys of the range interpolate, the two
    phases over the profile as stored do what the two phases do over
    the values read. *)

Lemma for_each_ext_in {A S} (body1 body2 : S → A → M S) l :
  (∀ s x, x ∈ l → body1 s x = body2 s x) →
  ∀ s, for_each body1 s l = for_each body2 s l.
Proof.
  induction l as [|x l IH]; intros Hbody s; [done |].
  rewrite !for_each_cons, Hbody by left.
  destruct (body2 s x) as [tr [e|s1]]; [done |].
  unfold mbind, M_bind; simpl. rewrite IH; [done |].
  intros s0 y Hy. apply Hbody. by right.
Qed.

Lemma for_each_appending {A B} (f : A → list B) (l : list A) (found : list B) :
  for_each (λ found x, mret (found ++ f x)) found l = mret (found ++ (l ≫= f)).
Proof.
  revert found. induction l as [|x l IH]; intros found.
  - cbn [for_each mbind list_bind]. by rewrite app_nil_r.
  - by rewrite for_each_cons, bind_mret_l, IH, bind_cons, app_assoc.
Qed.

Section agreement.
Variables (a : args.t) (w : World) (settings : gmap string string).
Hypothesis well :
  ∀ k, (args.start a ≤ k ≤ args.finish a)%Z →
       reads_well settings (key_id k) ∧ reads_well settings (key_filename k).

Lemma configured_at_agrees identifier k :
  (args.start a ≤ k ≤ args.finish a)%Z →
  stored.configured_at settings identifier k
  = mret (configured_at (as_read settings) identifier k).
Proof.
  intros Hk. destruct (well k Hk) as [Hid _].
  unfold stored.configured_at, configured_at.
  rewrite (has_option_as_read _ _ (optionxform_key_id k) Hid).
  destruct (as_read settings !! key_id k) as [ids|] eqn:Hids.
  - rewrite bool_decide_eq_true_2 by (by eexists).
    by rewrite (getitem_as_read _ _ (optionxform_key_id k) ids Hids), reading_inr.
  - by rewrite bool_decide_eq_false_2 by (by intros [? ?]).
Qed.

Lemma images_to_remove_agrees existing :
  stored.images_to_remove a settings existing
  = mret (images_to_remove a (as_read settings) existing).
Proof.
  unfold stored.images_to_remove, images_to_remove.
  rewrite (for_each_ext_in _
             (λ found image,
                mret (found ++ (Py.range (args.start a) (args.finish a + 1) ≫= λ image_id,
                                  if configured_at (as_read settings) (id image) image_id
                                  then [image] else [])))).
  { apply (for_each_appending
             (λ image, Py.range (args.start a) (args.finish a + 1) ≫= λ image_id,
                         if configured_at (as_read settings) (id image) image_id
                         then [image] else [])
             existing []). }
  intros found image _.
  rewrite (for_each_ext_in _
             (λ found image_id,
                mret (found ++ (if configured_at (as_read settings) (id image) image_id
                                then [image] else [])))).
  { apply (for_each_appending
             (λ image_id, if configured_at (as_read settings) (id image) image_id
                          then [image] else [])). }
  intros found' k Hk. apply elem_of_range in Hk.
  rewrite configured_at_agrees, bind_mret_l by lia.
  destruct (configured_at (as_read settings) (id image) k); [done |].
  by rewrite app_nil_r.
Qed.

Lemma position_agrees view st k :
  (args.start a ≤ k ≤ args.finish a)%Z →
  stored.position a w settings view st k = position a w (as_read settings) view st k.
Proof.
  intros Hk. destruct (well k Hk) as [Hid Hfile].
  unfold stored.position, position.
  rewrite (has_option_as_read _ _ (optionxform_key_id k) Hid).
  destruct (as_read settings !! key_id k) as [ids|] eqn:Hids.
  - rewrite bool_decide_eq_true_2 by (by eexists).
    unfold stored.images_of, images_of.
    rewrite (getitem_as_read _ _ (optionxform_key_id k) ids Hids), reading_inr.
    rewrite (get_as_read _ _ (optionxform_key_filename k) Hfile), reading_inr.
    by rewrite bind_mret_l.
  - by rewrite bool_decide_eq_false_2 by (by intros [? ?]).
Qed.

Lemma upload_phase_agrees view :
  stored.upload_phase a w settings view = upload_phase a w (as_read settings) view.
Proof.
  unfold stored.upload_phase, upload_phase, stored.upload_loop, upload_loop.
  rewrite (for_each_ext_in (stored.position a w settings view)
             (position a w (as_read settings) view)); [done |].
  intros s k Hk. apply elem_of_range in Hk. apply position_agrees. lia.
Qed.

(** X26: when the values stored for the id and the file-name keys of
    the range interpolate, the run over the profile as stored, whose
    reads can raise, does what the run does over the values read: the
    same trace and the same end. *)
Theorem stored_main_agrees configurations existing :
  stored.main a w settings configurations existing
  = main a w (as_read settings) configurations existing.
Proof.
  unfold stored.main, main.
  assert (stored.removal_phase a w settings configurations existing
          = removal_phase a w (as_read settings) configurations existing) as ->.
  { unfold stored.removal_phase, removal_phase.
    destruct (args.remove a); [| done].
    by rewrite images_to_remove_agrees, bind_mret_l. }
  destruct (removal_phase a w (as_read settings) configurations existing)
    as [tr [e|view]]; [done |].
  unfold mbind, M_bind. cbn [fst snd]. by rewrite upload_phase_agrees.
Qed.
End agreement.

Lemma stored_main_agrees_witness :
  stored.main (sample.flags 2 2 true true false 4) sample.calm scene.referring
    sample.configurations [sample.existing "party_a" 0]
  = main (sample.flags 2 2 true true false 4) sample.calm (as_read scene.referring)
      sample.configurations [sample.existing "party_a" 0].
Proof.
  apply stored_main_agrees. simpl. intros k Hk.
  assert (k = 2%Z) as -> by lia.
  split; intros value Hvalue; vm_compute in Hvalue; [| discriminate].
  injection Hvalue as <-. eexists. vm_compute. reflexivity.
Defined.

(** ** The whole run *)

Lemma only_logs_nil : only_logs [].
Proof. intros ev Hin. by apply elem_of_nil in Hin. Qed.

Lemma only_logs_app t1 t2 : only_logs t1 → only_logs t2 → only_logs (t1 ++ t2).
Proof.
  intros H1 H2 ev Hin. apply elem_of_app in Hin as [Hin | Hin]; eauto.
Qed.

Lemma only_logs_bind {A B} (m : IO A) (k : A → IO B) :
  only_logs m.1 → (∀ a, only_logs (k a).1) → only_logs (m ≫= k).1.
Proof.
  destruct m as [tr [e|a]]; simpl; [done |]. intros Hm Hk.
  by apply only_logs_app.
Qed.

Lemma only_logs_phase_events tr :
  Forall (λ ev, ∃ level message, ev = Log level message) (phase_events tr) →
  only_logs tr.
Proof.
  intros Hall ev Hin. rewrite Forall_forall in Hall. apply Hall.
  unfold phase_events. apply list_elem_of_omap. by exists (Ran ev).
Qed.

Lemma config_read_from_only_logs o parser paths :
  only_logs (config_read_from o parser paths).1.
Proof.
  revert parser. induction paths as [|path paths IH]; intros parser;
    [apply only_logs_nil |].
  cbn [config_read_from]. apply only_logs_bind; [| intros; apply IH].
  unfold read_one. apply only_logs_bind.
  - intros ev Hin. apply list_elem_of_singleton in Hin. discriminate.
  - intros _. destruct (config_file o path); apply only_logs_nil.
Qed.

Lemma say_only_logs level message : only_logs (say level message).1.
Proof.
  intros ev Hin. apply list_elem_of_singleton in Hin as [= ->]. eauto.
Qed.

Lemma load_settings_only_logs o module_file config_path profile :
  only_logs (load_settings o module_file config_path profile).1.
Proof.
  unfold load_settings.
  apply only_logs_bind; [apply say_only_logs |]. intros _.
  apply only_logs_bind; [apply config_read_from_only_logs |]. intros parser.
  destruct (has_section parser profile).
  - apply only_logs_bind; [apply say_only_logs | intros; apply only_logs_nil].
  - apply only_logs_bind; [apply say_only_logs |]. intros _.
    apply only_logs_bind; [| intros; apply only_logs_nil].
    unfold add_section. case_decide; apply only_logs_nil.
Qed.

Lemma main_setup_only_logs lib o c : only_logs (main_setup lib o c).1.
Proof.
  unfold main_setup. apply only_logs_bind; [apply load_settings_only_logs |].
  intros settings. apply only_logs_bind; [apply only_logs_nil |].
  intros hs. apply only_logs_bind; [apply only_logs_nil |].
  intros team. apply only_logs_bind; [apply only_logs_nil |].
  intros configured. apply only_logs_bind.
  { assert (only_logs (log_in_to_slack lib o team hs).1) as Hlogin.
    { apply only_logs_phase_events. rewrite log_in_to_slack_events.
      repeat constructor; eauto. }
    destruct configured as [[|ch rest]|]; [done | apply only_logs_nil | done]. }
  intros ck. apply only_logs_bind; [| intros; apply only_logs_nil].
  rewrite get_current_state_trace. intros ev Hin.
  apply list_elem_of_singleton in Hin. discriminate.
Qed.

(** What a successful setup hands to the two phases. *)
Lemma main_setup_inr lib o c settings configurations existing :
  (main_setup lib o c).2 = inr (settings, configurations, existing) →
  ∃ team,
    ConfigParser.getitem settings "slack.team" = inr team
    ∧ url (slack configurations)
      = ("https://" +:+ team +:+ ".slack.com/customize/emoji")%string
    ∧ dict_get "Cookie"%string (headers configurations)
      = Some (cookie (slack configurations))
    ∧ (get_current_state lib o configurations).2 = inr existing.
Proof.
  unfold main_setup. intros Hres.
  apply io_bind_result_inr in Hres as (settings' & _ & Hres).
  apply io_bind_result_inr in Hres as (hs & _ & Hres).
  apply io_bind_result_inr in Hres as (team & Hteam & Hres).
  apply io_bind_result_inr in Hres as (configured & _ & Hres).
  apply io_bind_result_inr in Hres as (ck & _ & Hres).
  apply io_bind_result_inr in Hres as (existing' & Hstate & Hres).
  unfold mret, IO_ret in Hres. simpl in Hres. injection Hres as -> <- ->.
  exists team. split; [exact Hteam |].
  split; [done |]. split; [| done].
  simpl. rewrite dict_get_set. by rewrite decide_True.
Qed.

Lemma stored_main_posts_use_configurations a w settings configurations existing :
  Forall (λ ev, match ev with
                | Post to hs _ =>
                    to = url (slack configurations) ∧ hs = headers configurations
                | _ => True
                end)
    (stored.main a w settings configurations existing).1.
Proof.
  unfold stored.main. apply bind_Forall.
  - unfold stored.removal_phase. destruct (args.remove a); [| constructor].
    apply bind_Forall; [rewrite stored_images_to_remove_quiet; constructor |].
    intros to_remove.
    apply bind_Forall; [| intros; rewrite remove_each_trace; constructor].
    destruct (args.dry_run a); [repeat constructor |].
    unfold remove. apply bind_Forall; [repeat constructor |]. intros _.
    apply bind_Forall; [| constructor].
    apply for_each_Forall. intros rank image _.
    unfold remove_one, remove_data, requests_post.
    destruct (remove_form image); [| constructor].
    destruct (post_outcome w rank); repeat constructor.
  - intros view. unfold stored.upload_phase. destruct (args.upload a); [| constructor].
    apply bind_Forall.
    { unfold ThreadPoolExecutor. case_bool_decide; constructor. }
    intros _. apply bind_Forall; [| intros; repeat constructor].
    unfold stored.upload_loop. apply for_each_Forall. intros s k _.
    unfold stored.position.
    destruct (ConfigParser.has_option settings (key_id k)); [| repeat constructor].
    apply bind_Forall; [rewrite stored_images_of_quiet; constructor |].
    intros images. apply for_each_Forall. intros s' image _.
    run_consider; destruct (args.dry_run a); repeat constructor.
Qed.

(** X24: every removal POST of a whole run goes to the emoji page of
    the team the profile names, with headers whose [Cookie] is the
    cookie of the session, configured or obtained by the login. *)
Theorem removals_carry_the_session lib o c a w settings configurations existing
    to hs data :
  (main_setup lib o c).2 = inr (settings, configurations, existing) →
  Ran (Post to hs data) ∈ (main_whole lib o c a w).1 →
  ∃ team,
    ConfigParser.getitem settings "slack.team" = inr team
    ∧ to = ("https://" +:+ team +:+ ".slack.com/customize/emoji")%string
    ∧ dict_get "Cookie"%string hs = Some (cookie (slack configurations)).
Proof.
  intros Hsetup Hin.
  destruct (main_setup_inr _ _ _ _ _ _ Hsetup) as (team & Hteam & Hurl & Hcookie & _).
  exists team. split; [done |].
  unfold main_whole in Hin. rewrite (io_bind_inr _ _ _ Hsetup) in Hin.
  cbn [fst snd] in Hin. apply elem_of_app in Hin as [Hin | Hin].
  - destruct (main_setup_only_logs lib o c _ Hin) as (? & ? & ?). discriminate.
  - unfold ran in Hin. cbn [fst] in Hin.
    apply list_elem_of_fmap in Hin as (ev & Hev & Hin). injection Hev as <-.
    pose proof (stored_main_posts_use_configurations a w settings configurations existing)
      as Hposts.
    rewrite Forall_forall in Hposts. destruct (Hposts _ Hin) as [-> ->]. by split.
Qed.

(** X25: when the setup fails, be it for the settings, the login or
    the snapshot, the run ends with that exception and has mutated
    nothing: no removal POST, no submission. *)
Theorem failed_setup_mutates_nothing lib o c a w e :
  (main_setup lib o c).2 = inl e →
  (main_whole lib o c a w).2 = inl e
  ∧ Forall (λ ev, ¬ mutation ev) (phase_events (main_whole lib o c a w).1).
Proof.
  intros Hsetup. unfold main_whole. rewrite (io_bind_inl _ _ _ Hsetup).
  split; [done |]. cbn [fst]. apply Forall_forall. intros ev Hin.
  unfold phase_events in Hin. apply list_elem_of_omap in Hin as (call & Hcall & Hev).
  destruct call; try discriminate. injection Hev as ->.
  destruct (main_setup_only_logs lib o c _ Hcall) as (level & message & ->).
  simpl. tauto.
Qed.

Lemma removals_carry_the_session_witness :
  ∃ team,
    ConfigParser.getitem
      ({[ "slack.team" := "team"; "slack.cookie" := "d=1";
          "2.id" := "a"; "2.filename" := "a.png" ]} : gmap string string)%string
      "slack.team" = inr team
    ∧ "https://team.slack.com/customize/emoji"%string
      = ("https://" +:+ team +:+ ".slack.com/customize/emoji")%string
    ∧ dict_get "Cookie"%string [("Cookie", "d=1")]%string = Some "d=1"%string.
Proof.
  apply (removals_carry_the_session scene.library (scene.outside scene.managed_section [])
           scene.command_line (sample.flags 2 2 false true false 4) sample.calm
           _ {| slack := {| url := "https://team.slack.com/customize/emoji";
                            cookie := "d=1" |};
                headers := [("Cookie", "d=1")];
                upload_folder := "/emoji" |}%string
           [sample.existing "a" 0; sample.existing "b" 1]
           _ _ [("remove", "a")]%string);
    [vm_compute; reflexivity | vm_compute; repeat constructor].
Defined.

Lemma failed_setup_mutates_nothing_witness :
  (main_whole scene.library (scene.outside scene.default_section [])
     scene.command_line (sample.flags 2 2 true true false 4) sample.calm).2
  = inl (OtherException "KeyError" "'slack.team'").
Proof.
  apply failed_setup_mutates_nothing. vm_compute. reflexivity.
Defined.
